(** * The rate-limited message board of the Convex backend

    A shallow embedding of the Convex functions of [convex/messages.ts]
    ([list], [send], [remove], [deleteAny]), of [convex/users.ts]
    ([isAdmin], [setAdminByEmail]) and of the quota table of
    [convex/lib/services/rateLimitService.ts], together with the properties
    the specification states about them. The handler wrappers of
    [convex/lib/middleware/withRateLimit.ts], the factories and repositories
    of [convex/lib/patterns] on the [messages] table and the route guards
    of [src/lib/patterns/RouteGuards.tsx] follow, with properties read off
    their code.

    Conventions of the embedding:
    - a JavaScript string is the list of its UTF-16 code units, so that
      [.length] is the length of the list and [.trim()] strips exactly the
      ECMAScript [WhiteSpace] and [LineTerminator] code units;
    - a handler is a computation in a state-and-exception monad over a
      [World] (the documents, the quota buckets and the log of the calls
      made to the platform); an exception leaves the world as it is at the
      throw, nothing is rolled back by the model;
    - the request context carries what the request gets from outside: the
      outcome of the session lookup, the clock, and the creation time the
      store gives to a document the request inserts. *)

From Stdlib Require Import ZArith String Ascii Lia.
From stdpp Require Import base option list numbers countable gmap sorting.

Local Open Scope Z_scope.

(** ** JavaScript strings *)

Abbreviation jsstring := (list N).

(** A literal of the source, all of whose characters are ASCII. *)
Fixpoint lit (s : string) : jsstring :=
  match s with
  | EmptyString => []
  | String c r => N_of_ascii c :: lit r
  end.

(** [s.length] *)
Definition js_length (s : jsstring) : Z := Z.of_nat (length s).

(** ECMAScript [WhiteSpace] and [LineTerminator] code units, the ones
    [String.prototype.trim] strips. *)
Definition isWhiteSpace (c : N) : bool :=
  ((c =? 0x0009) || (c =? 0x000A) || (c =? 0x000B) || (c =? 0x000C)
   || (c =? 0x000D) || (c =? 0x0020) || (c =? 0x00A0) || (c =? 0x1680)
   || ((0x2000 <=? c) && (c <=? 0x200A))
   || (c =? 0x2028) || (c =? 0x2029) || (c =? 0x202F) || (c =? 0x205F)
   || (c =? 0x3000) || (c =? 0xFEFF))%N.

Fixpoint trimStart (s : jsstring) : jsstring :=
  match s with
  | [] => []
  | c :: r => if isWhiteSpace c then trimStart r else s
  end.

Definition trimEnd (s : jsstring) : jsstring := rev (trimStart (rev s)).

(** [s.trim()] *)
Definition trim (s : jsstring) : jsstring := trimEnd (trimStart s).

(** [s.includes(c)] for a one-character needle. *)
Definition includes (s : jsstring) (c : N) : bool := existsb (N.eqb c) s.

(** [a || d] on a possibly undefined string: the empty string is falsy. *)
Definition js_or (a : option jsstring) (d : jsstring) : jsstring :=
  match a with
  | Some (c :: r) => c :: r
  | Some [] | None => d
  end.

(** [a ?? d]: only [undefined] and [null] give the default. *)
Definition js_nullish (a : option jsstring) (d : jsstring) : jsstring :=
  match a with
  | Some s => s
  | None => d
  end.

(** ** Documents and principals *)

(** A document id of the [messages] table. Convex ids are opaque strings
    handed out by the platform; the model numbers them. *)
Abbreviation Id := N.

Module AuthUser.
(** The user document the auth component returns. *)
Record t := mk {
  _id : jsstring;
  name : option jsstring;
  email : jsstring;
  role : option jsstring;
}.
End AuthUser.

Module Message.
(** A document of the [messages] table of [convex/schema.ts], with the
    system fields [_id] and [_creationTime]. The creation time is a number
    of milliseconds that can carry a fraction; it is counted here in a
    unit fine enough to make it whole, and only its order is used. *)
Record t := mk {
  _id : Id;
  _creationTime : Z;
  content : jsstring;
  authorId : option jsstring;
  authorName : option jsstring;
  createdAt : option Z;
}.
End Message.

(** ** The quota table of rateLimitService.ts *)

(** [keyof typeof RATE_LIMIT_DEFS] *)
Inductive RateLimitName :=
  | sendMessage | uploadFile | deleteFile | apiCall
  | loginAttempt | registerUser | sendEmail.

Inductive RateLimitKind := token_bucket | fixed_window.

Record RateLimitConfig := {
  kind : RateLimitKind;
  rate : Z;
  period : Z;
  capacity : Z;
}.

Definition RATE_LIMIT_DEFS (n : RateLimitName) : RateLimitConfig :=
  match n with
  | sendMessage => {| kind := token_bucket; rate := 10; period := 60000; capacity := 15 |}
  | uploadFile => {| kind := token_bucket; rate := 5; period := 60000; capacity := 10 |}
  | deleteFile => {| kind := token_bucket; rate := 20; period := 60000; capacity := 25 |}
  | apiCall => {| kind := token_bucket; rate := 60; period := 60000; capacity := 80 |}
  | loginAttempt => {| kind := token_bucket; rate := 5; period := 60000; capacity := 5 |}
  | registerUser => {| kind := token_bucket; rate := 3; period := 3600000; capacity := 3 |}
  | sendEmail => {| kind := token_bucket; rate := 10; period := 3600000; capacity := 10 |}
  end.

(** The keys of the object literal, in the order they are written. *)
Definition RateLimitNames : list RateLimitName :=
  [sendMessage; uploadFile; deleteFile; apiCall; loginAttempt; registerUser; sendEmail].

Definition name_string (n : RateLimitName) : string :=
  match n with
  | sendMessage => "sendMessage"
  | uploadFile => "uploadFile"
  | deleteFile => "deleteFile"
  | apiCall => "apiCall"
  | loginAttempt => "loginAttempt"
  | registerUser => "registerUser"
  | sendEmail => "sendEmail"
  end.

Definition kind_string (k : RateLimitKind) : string :=
  match k with
  | token_bucket => "token bucket"
  | fixed_window => "fixed window"
  end.

#[global] Instance RateLimitName_eq_dec : EqDecision RateLimitName.
Proof. solve_decision. Defined.

Definition RateLimitName_index (n : RateLimitName) : nat :=
  match n with
  | sendMessage => 0 | uploadFile => 1 | deleteFile => 2 | apiCall => 3
  | loginAttempt => 4 | registerUser => 5 | sendEmail => 6
  end%nat.

Definition RateLimitName_of_index (i : nat) : RateLimitName :=
  match i with
  | 0 => sendMessage | 1 => uploadFile | 2 => deleteFile | 3 => apiCall
  | 4 => loginAttempt | 5 => registerUser | _ => sendEmail
  end%nat.

#[global] Instance RateLimitName_countable : Countable RateLimitName.
Proof.
  apply (inj_countable' RateLimitName_index RateLimitName_of_index).
  intros []; reflexivity.
Defined.

(** ** Exceptions, the world and the handler monad *)

Inductive exn :=
  | Error (message : jsstring)
  (** the [ConvexError] the rate limiter throws when a call asks for it
      with [throws: true]; no call in the sources does *)
  | RateLimited (name : RateLimitName) (retryAfter : Z).

(** What a call of the rate limiter returns: [{ ok: true }], or
    [{ ok: false, retryAfter }] with the milliseconds to wait. *)
Inductive Verdict :=
  | Allowed
  | Rejected (retryAfter : Z).

Inductive completion (A : Type) :=
  | Return (a : A)
  | Throw (e : exn).
Arguments Return {A} a.
Arguments Throw {A} e.

(** A token bucket. [value] counts tokens in units of [1 / period] of a
    token (one token is [period] units), which keeps the continuous refill
    of [rate] tokens per [period] milliseconds exact on integers. *)
Record Bucket := {
  value : Z;
  ts : Z;
}.

(** The calls a handler makes to the platform, in the order made; a call
    of the rate limiter is logged with the verdict it returned. *)
Inductive Event :=
  | EvGetAuthUser
  | EvRateLimit (name : RateLimitName) (key : jsstring) (verdict : Verdict)
  | EvDbQuery
  | EvDbGet (id : Id)
  | EvDbInsert (id : Id)
  | EvDbDelete (id : Id)
  | EvConsoleLog (line : jsstring).

Record World := {
  db_messages : gmap N Message.t;
  next_id : N;
  buckets : gmap (RateLimitName * jsstring) Bucket;
  trace : list Event;
}.

Definition M (A : Type) : Type := World -> World * completion A.

Definition ret {A} (a : A) : M A := fun w => (w, Return a).
Definition throw {A} (e : exn) : M A := fun w => (w, Throw e).
Definition bind {A B} (m : M A) (k : A -> M B) : M B :=
  fun w =>
    match m w with
    | (w', Return a) => k a w'
    | (w', Throw e) => (w', Throw e)
    end.
(** [try { m } catch { h }] *)
Definition try_catch {A} (m : M A) (h : exn -> M A) : M A :=
  fun w =>
    match m w with
    | (w', Return a) => (w', Return a)
    | (w', Throw e) => h e w'
    end.

Notation "'let!' x ':=' m 'in' k" := (bind m (fun x => k))
  (at level 10, x name, m at level 100, k at level 200).
Notation "'run!' m 'in' k" := (bind m (fun _ => k))
  (at level 10, m at level 100, k at level 200).

Definition emit (e : Event) : M unit :=
  fun w => ({| db_messages := db_messages w; next_id := next_id w;
               buckets := buckets w; trace := trace w ++ [e] |}, Return tt).

(** What the handler can tell apart in what is stored. *)
Definition stored (w : World) :=
  (db_messages w, next_id w, buckets w).

(** ** The request context *)

(** What [authComponent.getAuthUser(ctx)] does for this request: it yields
    the user document, yields nothing, or throws. *)
Inductive AuthOutcome :=
  | Resolved (u : AuthUser.t)
  | NoUser
  | AuthThrows (e : exn).

(** [auth] and [now] are the session lookup and the clock of the request.
    [insert_stamp] is the [_creationTime] the store gives to a document
    this request inserts: the store picks it, not the handler, and it
    need not be the clock (the store gives growing creation times also
    to documents inserted at one clock). [ADMIN_EMAILS] is the constant of [convex/lib/config.ts],
    which the handlers read and never write. *)
Record Ctx := {
  auth : AuthOutcome;
  now : Z;
  insert_stamp : Z;
  ADMIN_EMAILS : list jsstring;
}.

(** Modelled from the spec: [ROLES.ADMIN] of [convex/lib/config.ts], which
    is not among the sources; the role tags are member and admin. *)
Definition ROLES_ADMIN : jsstring := lit "admin".

(** ** The platform: auth component and document store *)

(** [authComponent.getAuthUser(ctx)], a call into the auth component. *)
Definition getAuthUser (ctx : Ctx) : M (option AuthUser.t) :=
  run! emit EvGetAuthUser in
  match auth ctx with
  | Resolved u => ret (Some u)
  | NoUser => ret None
  | AuthThrows e => throw e
  end.

Definition get_bucket (k : RateLimitName * jsstring) : M (option Bucket) :=
  fun w => (w, Return (buckets w !! k)).

Definition put_bucket (k : RateLimitName * jsstring) (b : Bucket) : M unit :=
  fun w => ({| db_messages := db_messages w; next_id := next_id w;
               buckets := <[k := b]> (buckets w); trace := trace w |}, Return tt).

(** [ctx.db.get(id)] *)
Definition db_get (id : Id) : M (option Message.t) :=
  run! emit (EvDbGet id) in
  fun w => (w, Return (db_messages w !! id)).

(** [ctx.db.insert('messages', { content, authorId, authorName })]: the
    store picks the id and the [_creationTime]. *)
Definition db_insert (ctx : Ctx) (content : jsstring)
    (authorId authorName : option jsstring) : M Id :=
  fun w =>
    let id := next_id w in
    let doc := Message.mk id (insert_stamp ctx) content authorId authorName None in
    ({| db_messages := <[id := doc]> (db_messages w); next_id := N.succ id;
        buckets := buckets w; trace := trace w ++ [EvDbInsert id] |}, Return id).

(** [ctx.db.delete(id)] *)
Definition db_delete (id : Id) : M unit :=
  fun w =>
    ({| db_messages := delete id (db_messages w); next_id := next_id w;
        buckets := buckets w; trace := trace w ++ [EvDbDelete id] |}, Return tt).

(** The order of the default index, by [_creationTime] and then by [_id],
    read backwards: [newer a b] when [a] comes no later than [b] in
    [.order('desc')]. *)
Definition newer (a b : Message.t) : bool :=
  (Message._creationTime b <? Message._creationTime a)
  || ((Message._creationTime b =? Message._creationTime a)
      && (Message._id b <=? Message._id a)%N).

Definition newer_rel (a b : Message.t) : Prop := newer a b = true.

#[global] Instance newer_rel_dec a b : Decision (newer_rel a b).
Proof. unfold newer_rel. apply _. Defined.

(** [ctx.db.query('messages').order('desc').take(n)] *)
Definition db_query_desc_take (n : nat) : M (list Message.t) :=
  run! emit EvDbQuery in
  fun w => (w, Return (take n (merge_sort newer_rel
                                 (snd <$> map_to_list (db_messages w))))).

(** ** The rate limiter component *)

Module RateLimiter.

(** Modelled from the spec: the token bucket of the external
    [@convex-dev/rate-limiter] component, which is not among the
    sources. Each [(name, key)] pair owns a bucket; a bucket that was
    never used is full at [capacity]; it refills continuously by [rate]
    tokens per [period] milliseconds, capped at [capacity]. [tokens] is
    what the bucket holds at [now], in units of [1 / period] token. *)
Definition tokens (cfg : RateLimitConfig) (b : option Bucket) (now : Z) : Z :=
  match b with
  | None => capacity cfg * period cfg
  | Some b =>
      Z.min (capacity cfg * period cfg) (value b + rate cfg * (now - ts b))
  end.

(** Modelled from the spec: the retry guidance of a rejected call, the
    milliseconds until one whole token is back. *)
Definition retryAfter (cfg : RateLimitConfig) (v : Z) : Z :=
  (period cfg - v + rate cfg - 1) / rate cfg.

(** Modelled from the spec: [rateLimiter.limit(ctx, name, { key })], the
    call form of the sources. Its verdict is an admission, [Allowed], or
    a rejection with the milliseconds to wait, [Rejected retryAfter]. An
    admitted call takes exactly one token. A call that finds less than
    one token is rejected and leaves the bucket as it is. Either way the
    verdict is the value returned: the component throws on a rejection
    only when the call passes [throws: true], which no call in the
    sources does. *)
Definition limit (ctx : Ctx) (name : RateLimitName) (key : jsstring)
    : M Verdict :=
  let cfg := RATE_LIMIT_DEFS name in
  let! b := get_bucket (name, key) in
  let v := tokens cfg b (now ctx) in
  if period cfg <=? v
  then
    run! put_bucket (name, key) {| value := v - period cfg; ts := now ctx |} in
    run! emit (EvRateLimit name key Allowed) in
    ret Allowed
  else
    run! emit (EvRateLimit name key (Rejected (retryAfter cfg v))) in
    ret (Rejected (retryAfter cfg v)).

End RateLimiter.

(** ** convex/lib/authHelpers.ts *)

(** [user.email && ADMIN_EMAILS.includes(user.email)], else
    [user.role === ROLES.ADMIN]: the test of [users.isAdmin]. *)
Definition is_admin_user (ctx : Ctx) (user : AuthUser.t) : bool :=
  match AuthUser.email user with
  | [] => false
  | _ :: _ => bool_decide (AuthUser.email user ∈ ADMIN_EMAILS ctx)
  end
  || bool_decide (AuthUser.role user = Some ROLES_ADMIN).

(** Modelled from the spec: [requireAuth] of [convex/lib/authHelpers.ts],
    which is not among the sources. It yields the principal of the request
    and rejects a request that has none; an error of the session lookup is
    not caught. *)
Definition requireAuth (ctx : Ctx) : M AuthUser.t :=
  let! user := getAuthUser ctx in
  match user with
  | Some u => ret u
  | None => throw (Error (lit "Authentication required"))
  end.

(** Modelled from the spec: [requireAdmin] of [convex/lib/authHelpers.ts],
    which is not among the sources. It is [requireAuth] followed by the
    admin test of [users.isAdmin]. *)
Definition requireAdmin (ctx : Ctx) : M AuthUser.t :=
  let! user := requireAuth ctx in
  if is_admin_user ctx user then ret user
  else throw (Error (lit "Admin access required")).

(** ** convex/users.ts *)

Module users.

Definition current (ctx : Ctx) : M (option AuthUser.t) :=
  getAuthUser ctx.

Definition isAdmin (ctx : Ctx) : M bool :=
  let! user := getAuthUser ctx in
  match user with
  | None => ret false
  | Some u => ret (is_admin_user ctx u)
  end.

(** What [setAdminByEmail] returns. *)
Record AdminResult := {
  success : bool;
  email : jsstring;
  action : jsstring;
  instruction : jsstring;
}.

Definition quote : jsstring := [0x22%N].

(** The handler names its context [_ctx] and never uses it. *)
Definition setAdminByEmail (_ctx : Ctx) (email : jsstring) (isAdmin : bool)
    : M AdminResult :=
  if match email with [] => true | _ :: _ => false end
     || negb (includes email 0x40%N)
  then throw (Error (lit "Invalid email address"))
  else
    let action := if isAdmin then lit "grant" else lit "revoke" in
    let instruction :=
      if isAdmin
      then lit "Add " ++ quote ++ email ++ quote
           ++ lit " to ADMIN_EMAILS in convex/lib/config.ts"
      else lit "Remove " ++ quote ++ email ++ quote
           ++ lit " from ADMIN_EMAILS in convex/lib/config.ts" in
    run! emit (EvConsoleLog (lit "[ADMIN] " ++ action ++ lit " admin for "
                             ++ email ++ lit ": " ++ instruction)) in
    ret {| success := true; email := email; action := action;
           instruction := instruction |}.

End users.

(** ** convex/messages.ts *)

Module messages.

(** The verdict [rateLimiter.limit] returns is awaited and not looked at. *)
Definition send (ctx : Ctx) (content : jsstring) : M Id :=
  let trimmed := trim content in
  if js_length trimmed =? 0
  then throw (Error (lit "Message cannot be empty"))
  else if js_length trimmed >? 2000
  then throw (Error (lit "Message too long (max 2000 characters)"))
  else
    let! user := try_catch (getAuthUser ctx) (fun _ => ret None) in
    let rateLimitKey := js_or (AuthUser._id <$> user) (lit "anonymous") in
    run! RateLimiter.limit ctx sendMessage rateLimitKey in
    db_insert ctx trimmed
      (AuthUser._id <$> user)
      (Some (js_nullish (user ≫= AuthUser.name) (lit "Anonymous"))).

Definition remove (ctx : Ctx) (id : Id) : M unit :=
  let! user := requireAuth ctx in
  let! message := db_get id in
  match message with
  | None => throw (Error (lit "Message not found"))
  | Some message =>
      if bool_decide (Message.authorId message ≠ Some (AuthUser._id user))
      then throw (Error (lit "Not authorized to delete this message"))
      else db_delete id
  end.

Definition deleteAny (ctx : Ctx) (id : Id) : M unit :=
  run! requireAdmin ctx in
  let! message := db_get id in
  match message with
  | None => throw (Error (lit "Message not found"))
  | Some _ => db_delete id
  end.

Definition list (ctx : Ctx) : M (Datatypes.list Message.t) :=
  db_query_desc_take 50.

End messages.

(** ** Callers and vocabulary of the statements *)

(** One invocation of a public mutation, and what it hands back. *)
Inductive Mutation :=
  | Send (content : jsstring)
  | Remove (id : Id)
  | DeleteAny (id : Id)
  | SetAdminByEmail (email : jsstring) (isAdmin : bool).

Inductive Value :=
  | VId (id : Id)
  | VUndefined
  | VAdminResult (r : users.AdminResult).

Definition run_mutation (ctx : Ctx) (call : Mutation) : M Value :=
  match call with
  | Send content => let! id := messages.send ctx content in ret (VId id)
  | Remove id => run! messages.remove ctx id in ret VUndefined
  | DeleteAny id => run! messages.deleteAny ctx id in ret VUndefined
  | SetAdminByEmail email isAdmin =>
      let! r := users.setAdminByEmail ctx email isAdmin in ret (VAdminResult r)
  end.

(** A client that sends one request after the other. *)
Fixpoint send_all (reqs : list (Ctx * jsstring)) (w : World)
    : World * list (completion Id) :=
  match reqs with
  | [] => (w, [])
  | (ctx, content) :: rest =>
      let (w1, r) := messages.send ctx content w in
      let (w2, rs) := send_all rest w1 in
      (w2, r :: rs)
  end.


(** The principal a request resolves to once a failed lookup is folded
    into absence. *)
Definition principal (ctx : Ctx) : option AuthUser.t :=
  match auth ctx with
  | Resolved u => Some u
  | NoUser | AuthThrows _ => None
  end.

(** The same request with no session at all. *)
Definition signed_out (ctx : Ctx) : Ctx :=
  {| auth := NoUser; now := now ctx; insert_stamp := insert_stamp ctx;
     ADMIN_EMAILS := ADMIN_EMAILS ctx |}.

Definition all_whitespace (s : jsstring) : Prop :=
  Forall (fun c => isWhiteSpace c = true) s.

Definition valid_content (content : jsstring) : Prop :=
  0 < js_length (trim content) <= 2000.

(** What the bucket of [(name, key)] holds when the request arrives. *)
Definition available (name : RateLimitName) (key : jsstring) (ctx : Ctx)
    (w : World) : Z :=
  RateLimiter.tokens (RATE_LIMIT_DEFS name) (buckets w !! (name, key)) (now ctx).

(** The bucket holds a whole token. *)
Definition admits (name : RateLimitName) (key : jsstring) (ctx : Ctx)
    (w : World) : Prop :=
  period (RATE_LIMIT_DEFS name) <= available name key ctx w.

(** The verdict of the gate on [(name, key)] for a request that arrives
    in [w], and the buckets the call leaves behind. *)
Definition verdict_of (name : RateLimitName) (key : jsstring) (ctx : Ctx)
    (w : World) : Verdict :=
  if period (RATE_LIMIT_DEFS name) <=? available name key ctx w
  then Allowed
  else Rejected (RateLimiter.retryAfter (RATE_LIMIT_DEFS name)
                   (available name key ctx w)).

Definition buckets_after (name : RateLimitName) (key : jsstring) (ctx : Ctx)
    (w : World) : gmap (RateLimitName * jsstring) Bucket :=
  if period (RATE_LIMIT_DEFS name) <=? available name key ctx w
  then <[(name, key) :=
           {| value := available name key ctx w - period (RATE_LIMIT_DEFS name);
              ts := now ctx |}]> (buckets w)
  else buckets w.

(** The verdicts of the gate calls in a log, in the order made. *)
Definition gate_verdicts (events : list Event) : list Verdict :=
  omap (fun e => match e with
                 | EvRateLimit _ _ v => Some v
                 | _ => None
                 end) events.

(** The bucket is at its capacity. *)
Definition full (name : RateLimitName) (key : jsstring) (ctx : Ctx)
    (w : World) : Prop :=
  available name key ctx w
  = capacity (RATE_LIMIT_DEFS name) * period (RATE_LIMIT_DEFS name).

(** The partition key [send] computes for a request. *)
Definition sendKey (ctx : Ctx) : jsstring :=
  js_or (AuthUser._id <$> principal ctx) (lit "anonymous").

(** The calls a [send] adds to the log. *)
Definition send_events (ctx : Ctx) (content : jsstring) (w : World) : list Event :=
  drop (length (trace w)) (trace (fst (messages.send ctx content w))).

(** The key as a function of the session lookup alone: the identifier of
    a principal whose identifier is not the empty string, the sentinel
    otherwise. *)
Definition partition_key (a : AuthOutcome) : jsstring :=
  match a with
  | Resolved u =>
      match AuthUser._id u with
      | [] => lit "anonymous"
      | _ :: _ => AuthUser._id u
      end
  | NoUser | AuthThrows _ => lit "anonymous"
  end.

(** The quota table as the specification prints it: name, kind, rate,
    window in milliseconds, capacity. *)
Definition spec_quota_table : list (string * string * Z * Z * Z) :=
  [ ("sendMessage", "token bucket", 10, 60000, 15);
    ("uploadFile", "token bucket", 5, 60000, 10);
    ("deleteFile", "token bucket", 20, 60000, 25);
    ("apiCall", "token bucket", 60, 60000, 80);
    ("loginAttempt", "token bucket", 5, 60000, 5);
    ("registerUser", "token bucket", 3, 3600000, 3);
    ("sendEmail", "token bucket", 10, 3600000, 10) ]%string.

(** The row of the code's table for one operation name. *)
Definition quota_row (n : RateLimitName) : string * string * Z * Z * Z :=
  let cfg := RATE_LIMIT_DEFS n in
  (name_string n, kind_string (kind cfg), rate cfg, period cfg, capacity cfg).

(** ** Sample data *)

Definition world0 : World :=
  {| db_messages := ∅; next_id := 0; buckets := ∅; trace := [] |}.

Definition anonymous_ctx : Ctx :=
  {| auth := NoUser; now := 0; insert_stamp := 0; ADMIN_EMAILS := [] |}.

Definition broken_session_ctx : Ctx :=
  {| auth := AuthThrows (Error (lit "Unauthenticated")); now := 0;
     insert_stamp := 0; ADMIN_EMAILS := [] |}.

Definition u1 : AuthUser.t :=
  AuthUser.mk (lit "u1") (Some (lit "Ann")) (lit "ann@example.com") None.

Definition u2 : AuthUser.t :=
  AuthUser.mk (lit "u2") None (lit "bob@example.com") None.

(** A request of [u] at clock [t], whose insert the store stamps [t]. *)
Definition ctx_of (u : AuthUser.t) (t : Z) : Ctx :=
  {| auth := Resolved u; now := t; insert_stamp := t; ADMIN_EMAILS := [] |}.

(** The board after [u2] has posted "hello" at time 0, and that post. *)
Definition board1 : World :=
  fst (messages.send (ctx_of u2 0) (lit "hello") world0).

Definition hello_by_u2 : Message.t :=
  Message.mk 0 0 (lit "hello") (Some (lit "u2")) (Some (lit "Anonymous")) None.

(** The request [ctx] when the store gives the creation time [s] to the
    document it inserts. *)
Definition stamped (ctx : Ctx) (s : Z) : Ctx :=
  {| auth := auth ctx; now := now ctx; insert_stamp := s;
     ADMIN_EMAILS := ADMIN_EMAILS ctx |}.

(** [n] requests like [ctx] with one content, all at the clock of [ctx].
    The store gives their documents the creation times 0, 1, 2, ... in
    turn: creation times grow also while the clock stands still. *)
Definition burst (n : nat) (ctx : Ctx) (content : jsstring)
    : list (Ctx * jsstring) :=
  (fun s => (stamped ctx s, content)) <$> seqZ 0 (Z.of_nat n).

(** The board after [u1] has posted 15 times at clock 0 from a fresh
    bucket: the bucket of [u1] is empty. *)
Definition drained_board : World :=
  fst (send_all (burst 15 (ctx_of u1 0) (lit "hi")) world0).

(** Eleven posts by [u1], one second apart. *)
Definition eleven_sends : list (Ctx * jsstring) :=
  (fun i => (ctx_of u1 (1000 * i), lit "hi")) <$> seqZ 0 11.

(** A board of 60 messages, one posted every second. *)
Definition crowded_board : World :=
  {| db_messages :=
       list_to_map
         ((fun i => (Z.to_N i, Message.mk (Z.to_N i) (1000 * i) (lit "hi") None
                                  (Some (lit "Anonymous")) None))
            <$> seqZ 0 60);
     next_id := 60; buckets := ∅; trace := [] |}.

(** ** More of the document store *)

(** [.order('asc')], the default, and [.order('desc')]. *)
Inductive Order := asc | desc.

Definition order_rel (o : Order) : relation Message.t :=
  match o with
  | desc => newer_rel
  | asc => flip newer_rel
  end.

#[global] Instance order_rel_dec o a b : Decision (order_rel o a b).
Proof. destruct o; apply _. Defined.

(** [n] items of a list, all of them when no [n] is given. *)
Definition take_upto {A} (n : option nat) (l : list A) : list A :=
  match n with
  | Some n => take n l
  | None => l
  end.

(** [ctx.db.query('messages').filter(p).order(o)] followed by [.take(n)]
    for [Some n] and by [.collect()] for [None]. *)
Definition db_query_filter (p : Message.t -> Prop) `{!∀ m, Decision (p m)}
    (o : Order) (n : option nat) : M (list Message.t) :=
  run! emit EvDbQuery in
  fun w => (w, Return (take_upto n
                         (merge_sort (order_rel o)
                            (filter p (snd <$> map_to_list (db_messages w)))))).

(** ** convex/lib/middleware/withRateLimit.ts *)

Module middleware.

(** [options?.getKey] is [Some] of the custom key function, or [None].
    The verdict [rateLimiter.limit] returns is awaited and not looked at. *)
Definition withRateLimit {Args Output : Type}
    (handler : Ctx -> Args -> AuthUser.t -> M Output)
    (operation : RateLimitName)
    (getKey : option (Ctx -> Args -> AuthUser.t -> jsstring))
    : Ctx -> Args -> M Output :=
  fun ctx args =>
    let! user := requireAuth ctx in
    let key :=
      match getKey with
      | Some f => f ctx args user
      | None => AuthUser._id user
      end in
    run! RateLimiter.limit ctx operation key in
    handler ctx args user.

Definition withStandardRateLimit {Args Output : Type}
    (handler : Ctx -> Args -> AuthUser.t -> M Output) : Ctx -> Args -> M Output :=
  withRateLimit handler apiCall None.

Definition withStrictRateLimit {Args Output : Type}
    (handler : Ctx -> Args -> AuthUser.t -> M Output) : Ctx -> Args -> M Output :=
  withRateLimit handler sendMessage None.

Definition withFileUploadLimit {Args Output : Type}
    (handler : Ctx -> Args -> AuthUser.t -> M Output) : Ctx -> Args -> M Output :=
  withRateLimit handler uploadFile None.

Definition withAuthRateLimit {Args Output : Type}
    (handler : Ctx -> Args -> AuthUser.t -> M Output) : Ctx -> Args -> M Output :=
  withRateLimit handler loginAttempt None.

End middleware.

(** ** convex/lib/patterns/Factory.ts *)

(** The object [ResponseFactory.success] builds. *)
Module SuccessResponse.
Record t (T : Type) := mk {
  success : bool;
  data : T;
  message : option jsstring;
}.
Arguments mk {T} _ _ _.
Arguments success {T} _.
Arguments data {T} _.
Arguments message {T} _.
End SuccessResponse.

Module ResponseFactory.

Definition success {T} (data : T) (message : option jsstring)
    : SuccessResponse.t T :=
  SuccessResponse.mk true data message.

End ResponseFactory.

Module MutationFactory.

Definition authenticated {Args Output : Type}
    (handler : Ctx -> Args -> AuthUser.t -> M Output) : Ctx -> Args -> M Output :=
  fun ctx args =>
    let! user := requireAuth ctx in
    handler ctx args user.

Definition adminOnly {Args Output : Type}
    (handler : Ctx -> Args -> AuthUser.t -> M Output) : Ctx -> Args -> M Output :=
  fun ctx args =>
    let! user := requireAdmin ctx in
    handler ctx args user.

End MutationFactory.



(** [QueryFactory] at the table [messages]. *)
Module QueryFactory.

Definition dateRange (startTime endTime : Z) : M (list Message.t) :=
  db_query_filter
    (fun m => startTime <= Message._creationTime m
              ∧ Message._creationTime m <= endTime)
    asc None.

Definition getAllWhere (p : Message.t -> Prop) `{!∀ m, Decision (p m)}
    : M (list Message.t) :=
  db_query_filter p asc None.

End QueryFactory.

(** ** convex/lib/patterns/Repository.ts *)

(** [MessageRepository], with the methods it inherits from [Repository]. *)
Module MessageRepository.

Definition findById (id : Id) : M (option Message.t) := db_get id.

Definition findAll : M (list Message.t) :=
  db_query_filter (fun _ => True) asc None.

Definition count : M Z :=
  let! docs := db_query_filter (fun _ => True) asc None in
  ret (Z.of_nat (length docs)).

(** [limit] is [None] when the caller leaves it out: the default is 50.
    A limit handed to [.take] is a count, hence a natural number here. *)
Definition findByAuthorId (authorId : jsstring) (limit : option nat)
    : M (list Message.t) :=
  db_query_filter (fun m => Message.authorId m = Some authorId)
    desc (Some (default 50%nat limit)).

Definition findByAuthorName (authorName : jsstring) (limit : option nat)
    : M (list Message.t) :=
  db_query_filter (fun m => Message.authorName m = Some authorName)
    desc (Some (default 50%nat limit)).

Definition getRecent (limit : option nat) : M (list Message.t) :=
  db_query_desc_take (default 50%nat limit).

Definition findInDateRange (startTime endTime : Z) : M (list Message.t) :=
  db_query_filter
    (fun m => startTime <= Message._creationTime m
              ∨ Message._creationTime m <= endTime)
    asc None.

End MessageRepository.

(** ** src/lib/patterns/RouteGuards.tsx *)

Module RouteGuards.

Inductive RedirectTarget := root | files | dashboard | here | up.

(** What a guard renders: the default loading [div], a redirect, the
    fragment around its children, or a node handed in from outside. *)
Inductive Node :=
  | LoadingDiv
  | Navigate (to : RedirectTarget)
  | Fragment (children : Node)
  | Content (label : jsstring)
  | Null.

(** [useSession()] gives [{ data: session, isPending }], [useAdmin()]
    gives [{ isAdmin, isLoading }]; [session_user] is [session?.user],
    present or not. *)
Record Hooks := {
  session_user : option jsstring;
  isPending : bool;
  isAdmin : bool;
  isAdminLoading : bool;
}.

(** [redirectTo = '/'] *)
Definition redirect_or_root (redirectTo : option RedirectTarget) : RedirectTarget :=
  default root redirectTo.

(** [fallback ?? <div>Loading...</div>] *)
Definition fallback_or_loading (fallback : option Node) : Node :=
  default LoadingDiv fallback.

Definition RequireAuth (h : Hooks) (redirectTo : option RedirectTarget)
    (fallback : option Node) (children : Node) : Node :=
  if isPending h then fallback_or_loading fallback
  else if negb (bool_decide (is_Some (session_user h)))
  then Navigate (redirect_or_root redirectTo)
  else Fragment children.

Definition RequireAdmin (h : Hooks) (redirectTo : option RedirectTarget)
    (fallback : option Node) (children : Node) : Node :=
  if isPending h || isAdminLoading h then fallback_or_loading fallback
  else if negb (bool_decide (is_Some (session_user h)))
  then Navigate (redirect_or_root redirectTo)
  else if negb (isAdmin h)
  then Navigate (redirect_or_root redirectTo)
  else Fragment children.

(** [role] is one role name or an array of them. *)
Definition RequireRole (h : Hooks) (role : jsstring + list jsstring)
    (redirectTo : option RedirectTarget) (fallback : option Node)
    (children : Node) : Node :=
  if isPending h || isAdminLoading h then fallback_or_loading fallback
  else if negb (bool_decide (is_Some (session_user h)))
  then Navigate (redirect_or_root redirectTo)
  else
    let allowedRoles :=
      match role with
      | inl r => [r]
      | inr rs => rs
      end in
    let hasRole :=
      (bool_decide (lit "admin" ∈ allowedRoles) && isAdmin h)
      || (bool_decide (lit "user" ∈ allowedRoles)
          && bool_decide (is_Some (session_user h))) in
    if negb hasRole then Navigate (redirect_or_root redirectTo)
    else Fragment children.

Definition RequireGuest (h : Hooks) (redirectTo : option RedirectTarget)
    (children : Node) : Node :=
  if isPending h then LoadingDiv
  else if bool_decide (is_Some (session_user h))
  then Navigate (redirect_or_root redirectTo)
  else Fragment children.

Definition RequireSubscription (h : Hooks) (redirectTo : option RedirectTarget)
    (fallback : option Node) (children : Node) : Node :=
  if isPending h then fallback_or_loading fallback
  else if negb (bool_decide (is_Some (session_user h)))
  then Navigate (redirect_or_root redirectTo)
  else
    let hasActiveSubscription := false in
    if negb hasActiveSubscription then Navigate (redirect_or_root redirectTo)
    else Fragment children.

(** A guard as [ComposeGuards] uses it: given its children only.
    [guards.reduceRight((acc, Guard) => <Guard>{acc}</Guard>, <>{children}</>)] *)
Definition ComposeGuards (guards : list (Node -> Node)) (children : Node) : Node :=
  foldr (fun Guard acc => Guard acc) (Fragment children) guards.

End RouteGuards.

(** [n] fragments around a node. *)
Fixpoint fragments (n : nat) (inner : RouteGuards.Node) : RouteGuards.Node :=
  match n with
  | O => inner
  | S k => RouteGuards.Fragment (fragments k inner)
  end.

(** The key [withRateLimit] hands to the gate for the user [u]. *)
Definition wrapper_key {Args : Type}
    (getKey : option (Ctx -> Args -> AuthUser.t -> jsstring))
    (ctx : Ctx) (args : Args) (u : AuthUser.t) : jsstring :=
  match getKey with
  | Some f => f ctx args u
  | None => AuthUser._id u
  end.

(** The world once the session lookup and then the call of the gate on
    [(name, key)] are behind, whatever the verdict. *)
Definition after_lookup_and_gate (ctx : Ctx) (name : RateLimitName)
    (key : jsstring) (w : World) : World :=
  {| db_messages := db_messages w; next_id := next_id w;
     buckets := buckets_after name key ctx w;
     trace := trace w ++ [EvGetAuthUser;
                          EvRateLimit name key (verdict_of name key ctx w)] |}.

(** A sample handler for the wrappers: it posts its argument under the
    user's name. *)
Definition post_as_user (ctx : Ctx) (content : jsstring) (user : AuthUser.t)
    : M Id :=
  db_insert ctx content (Some (AuthUser._id user)) (AuthUser.name user).

(** ** Invariants of the board *)

(** Every document sits under its own id, below the next id to hand out. *)
Definition ids_consistent (w : World) : Prop :=
  ∀ id m, db_messages w !! id = Some m →
          Message._id m = id ∧ (id < next_id w)%N.

(** What [send] guarantees of a message it stores. *)
Definition well_formed_message (m : Message.t) : Prop :=
  trim (Message.content m) = Message.content m
  ∧ 1 <= js_length (Message.content m) <= 2000
  ∧ is_Some (Message.authorName m).

Definition all_messages_well_formed (w : World) : Prop :=
  ∀ id m, db_messages w !! id = Some m → well_formed_message m.

(** * Properties *)

(** ** [trim] *)

Lemma trimStart_split s :
  ∃ pre, s = pre ++ trimStart s ∧ all_whitespace pre.
Proof.
  induction s as [|c r [pre [Heq Hws]]]; simpl.
  - exists []. split; [done | constructor].
  - destruct (isWhiteSpace c) eqn:Hc.
    + exists (c :: pre). split; [simpl; congruence | by constructor].
    + exists []. split; [done | constructor].
Qed.

Lemma trimStart_head s c : head (trimStart s) = Some c → isWhiteSpace c = false.
Proof.
  induction s as [|d r IH]; simpl; [done |].
  destruct (isWhiteSpace d) eqn:Hd; [done |].
  simpl. congruence.
Qed.

Lemma trimEnd_split s :
  ∃ post, s = trimEnd s ++ post ∧ all_whitespace post.
Proof.
  destruct (trimStart_split (rev s)) as [pre [Heq Hws]].
  exists (rev pre). split.
  - unfold trimEnd. rewrite <- rev_app_distr, <- Heq. by rewrite rev_involutive.
  - unfold all_whitespace in *. by apply Forall_rev.
Qed.

Lemma trimEnd_last s c : last (trimEnd s) = Some c → isWhiteSpace c = false.
Proof.
  unfold trimEnd. rewrite rev_alt.
  change (rev_append ?l []) with (reverse l).
  rewrite last_reverse. apply trimStart_head.
Qed.

Lemma trimEnd_head s c : head (trimEnd s) = Some c → head s = Some c.
Proof.
  destruct (trimEnd_split s) as [post [Heq _]].
  intros H. rewrite Heq. by destruct (trimEnd s).
Qed.


Lemma trim_head s c : head (trim s) = Some c → isWhiteSpace c = false.
Proof. intros H. apply trimEnd_head in H. by apply trimStart_head in H. Qed.

Lemma trim_last s c : last (trim s) = Some c → isWhiteSpace c = false.
Proof. apply trimEnd_last. Qed.

(** ** What one call of the gate and one [send] do *)

Lemma verdict_admitted name key ctx w :
  admits name key ctx w →
  verdict_of name key ctx w = Allowed
  ∧ buckets_after name key ctx w
    = <[(name, key) :=
          {| value := available name key ctx w - period (RATE_LIMIT_DEFS name);
             ts := now ctx |}]> (buckets w).
Proof.
  unfold admits, verdict_of, buckets_after. intros H.
  apply Z.leb_le in H. by rewrite H.
Qed.

Lemma verdict_rejected name key ctx w :
  ¬ admits name key ctx w →
  verdict_of name key ctx w
  = Rejected (RateLimiter.retryAfter (RATE_LIMIT_DEFS name)
                (available name key ctx w))
  ∧ buckets_after name key ctx w = buckets w.
Proof.
  unfold admits, verdict_of, buckets_after. intros H.
  apply Z.leb_nle in H. by rewrite H.
Qed.

Lemma limit_run ctx name key w :
  RateLimiter.limit ctx name key w =
    ({| db_messages := db_messages w; next_id := next_id w;
        buckets := buckets_after name key ctx w;
        trace := trace w ++ [EvRateLimit name key (verdict_of name key ctx w)] |},
     Return (verdict_of name key ctx w)).
Proof.
  unfold verdict_of, buckets_after, available.
  cbv [RateLimiter.limit bind emit get_bucket put_bucket ret].
  by destruct (_ <=? _).
Qed.


Lemma limit_rejected ctx name key w :
  ¬ admits name key ctx w →
  RateLimiter.limit ctx name key w =
    ({| db_messages := db_messages w; next_id := next_id w; buckets := buckets w;
        trace := trace w
                 ++ [EvRateLimit name key
                       (Rejected (RateLimiter.retryAfter (RATE_LIMIT_DEFS name)
                                    (available name key ctx w)))] |},
     Return (Rejected (RateLimiter.retryAfter (RATE_LIMIT_DEFS name)
                         (available name key ctx w)))).
Proof.
  intros H. rewrite limit_run.
  by destruct (verdict_rejected name key ctx w H) as [-> ->].
Qed.

Lemma send_empty ctx content w :
  js_length (trim content) = 0 →
  messages.send ctx content w = (w, Throw (Error (lit "Message cannot be empty"))).
Proof. intros H. unfold messages.send. rewrite H. reflexivity. Qed.

Lemma send_too_long ctx content w :
  2000 < js_length (trim content) →
  messages.send ctx content w =
    (w, Throw (Error (lit "Message too long (max 2000 characters)"))).
Proof.
  intros H. unfold messages.send.
  destruct (Z.eqb_spec (js_length (trim content)) 0) as [E|_]; [lia |].
  destruct (Z.gtb_spec (js_length (trim content)) 2000) as [_|E]; [| lia].
  reflexivity.
Qed.

Lemma send_resolves ctx w :
  try_catch (getAuthUser ctx) (fun _ => ret None) w =
    ({| db_messages := db_messages w; next_id := next_id w; buckets := buckets w;
        trace := trace w ++ [EvGetAuthUser] |}, Return (principal ctx)).
Proof.
  cbv [try_catch getAuthUser bind emit principal].
  destruct (auth ctx); reflexivity.
Qed.

Lemma send_valid ctx content w :
  valid_content content →
  messages.send ctx content w =
    (let! user := try_catch (getAuthUser ctx) (fun _ => ret None) in
     run! RateLimiter.limit ctx sendMessage (js_or (AuthUser._id <$> user) (lit "anonymous")) in
     db_insert ctx (trim content) (AuthUser._id <$> user)
       (Some (js_nullish (user ≫= AuthUser.name) (lit "Anonymous")))) w.
Proof.
  unfold valid_content. intros H. unfold messages.send.
  destruct (Z.eqb_spec (js_length (trim content)) 0) as [E|_]; [lia |].
  destruct (Z.gtb_spec (js_length (trim content)) 2000) as [E|_]; [lia |].
  reflexivity.
Qed.

(** What [send] does with content that passes validation, whatever the
    gate answers. *)
Lemma send_run ctx content w :
  valid_content content →
  messages.send ctx content w =
    ({| db_messages :=
          <[next_id w :=
              Message.mk (next_id w) (insert_stamp ctx) (trim content)
                (AuthUser._id <$> principal ctx)
                (Some (js_nullish (principal ctx ≫= AuthUser.name) (lit "Anonymous")))
                None]> (db_messages w);
        next_id := N.succ (next_id w);
        buckets := buckets_after sendMessage (sendKey ctx) ctx w;
        trace := trace w
                 ++ [EvGetAuthUser;
                     EvRateLimit sendMessage (sendKey ctx)
                       (verdict_of sendMessage (sendKey ctx) ctx w);
                     EvDbInsert (next_id w)] |},
     Return (next_id w)).
Proof.
  intros Hv. rewrite send_valid by done.
  unfold bind at 1. rewrite send_resolves.
  unfold bind. fold (sendKey ctx). rewrite limit_run.
  cbv [db_insert]. cbn [buckets db_messages next_id trace].
  rewrite <- !app_assoc. reflexivity.
Qed.

Lemma send_admitted ctx content w :
  valid_content content →
  admits sendMessage (sendKey ctx) ctx w →
  messages.send ctx content w =
    ({| db_messages :=
          <[next_id w :=
              Message.mk (next_id w) (insert_stamp ctx) (trim content)
                (AuthUser._id <$> principal ctx)
                (Some (js_nullish (principal ctx ≫= AuthUser.name) (lit "Anonymous")))
                None]> (db_messages w);
        next_id := N.succ (next_id w);
        buckets := <[(sendMessage, sendKey ctx) :=
                       {| value := available sendMessage (sendKey ctx) ctx w - 60000;
                          ts := now ctx |}]> (buckets w);
        trace := trace w ++ [EvGetAuthUser;
                             EvRateLimit sendMessage (sendKey ctx) Allowed;
                             EvDbInsert (next_id w)] |},
     Return (next_id w)).
Proof.
  intros Hv Ha. rewrite send_run by done.
  by destruct (verdict_admitted _ _ _ _ Ha) as [-> ->].
Qed.

(** The gate's rejection does not stop [send]: the message is stored. *)
Lemma send_rejected ctx content w :
  valid_content content →
  ¬ admits sendMessage (sendKey ctx) ctx w →
  messages.send ctx content w =
    ({| db_messages :=
          <[next_id w :=
              Message.mk (next_id w) (insert_stamp ctx) (trim content)
                (AuthUser._id <$> principal ctx)
                (Some (js_nullish (principal ctx ≫= AuthUser.name) (lit "Anonymous")))
                None]> (db_messages w);
        next_id := N.succ (next_id w);
        buckets := buckets w;
        trace := trace w
                 ++ [EvGetAuthUser;
                     EvRateLimit sendMessage (sendKey ctx)
                       (Rejected (RateLimiter.retryAfter (RATE_LIMIT_DEFS sendMessage)
                                    (available sendMessage (sendKey ctx) ctx w)));
                     EvDbInsert (next_id w)] |},
     Return (next_id w)).
Proof.
  intros Hv Ha. rewrite send_run by done.
  by destruct (verdict_rejected _ _ _ _ Ha) as [-> ->].
Qed.

Lemma admits_dec name key ctx w :
  {admits name key ctx w} + {¬ admits name key ctx w}.
Proof. unfold admits. apply Z_le_dec. Qed.

Lemma content_cases content :
  js_length (trim content) = 0
  ∨ 2000 < js_length (trim content)
  ∨ valid_content content.
Proof. unfold valid_content, js_length. lia. Qed.

Lemma sendKey_partition_key ctx : sendKey ctx = partition_key (auth ctx).
Proof.
  unfold sendKey, principal, partition_key.
  destruct (auth ctx) as [u| |e]; try reflexivity.
  simpl. by destruct (AuthUser._id u).
Qed.

Lemma send_events_valid ctx content w :
  valid_content content →
  send_events ctx content w =
    [EvGetAuthUser;
     EvRateLimit sendMessage (sendKey ctx) (verdict_of sendMessage (sendKey ctx) ctx w);
     EvDbInsert (next_id w)].
Proof.
  intros Hv. unfold send_events. rewrite send_run by done.
  cbn [fst trace]. by rewrite drop_app_length.
Qed.

(** ** C1: the order of the steps of [send] *)

(** C1, as the code has it. Content validation is the first step of
    [send]: content that fails it is rejected with a validation message
    before anything else happens, with no call made to the platform, the
    rate limiter included, and the world as before. For content that
    passes, the session lookup comes first and the rate-limit call on
    [sendMessage] second, under the request's partition key, which is
    "anonymous" when no principal is resolved; whatever follows the gate
    call is the insert. *)
Theorem send_gate_between_identity_and_commit ctx content w :
  sendKey ctx = partition_key (auth ctx)
  ∧ match auth ctx with
    | Resolved _ => True
    | NoUser | AuthThrows _ => sendKey ctx = lit "anonymous"
    end
  ∧ ((¬ valid_content content
      ∧ (∃ msg, messages.send ctx content w = (w, Throw (Error msg)))
      ∧ send_events ctx content w = [])
     ∨ (valid_content content
        ∧ ∃ verdict rest,
            send_events ctx content w
            = EvGetAuthUser :: EvRateLimit sendMessage (sendKey ctx) verdict :: rest
            ∧ (rest = [] ∨ rest = [EvDbInsert (next_id w)]))).
Proof.
  split; [apply sendKey_partition_key |].
  split; [unfold sendKey, principal; by destruct (auth ctx) |].
  destruct (content_cases content) as [H|[H|Hv]].
  - left. split; [unfold valid_content; lia |].
    unfold send_events. rewrite send_empty by done.
    split; [by eexists | cbn [fst]; by rewrite drop_all].
  - left. split; [unfold valid_content; lia |].
    unfold send_events. rewrite send_too_long by done.
    split; [by eexists | cbn [fst]; by rewrite drop_all].
  - right. split; [done |]. rewrite send_events_valid by done.
    do 2 eexists. split; [reflexivity | by right].
Qed.

(** C1 as the specification words it fails: blank content is turned down
    by validation, and the request ends without any rate-limit call and
    with every bucket untouched. *)
Lemma send_blank_content_never_reaches_gate :
  messages.send anonymous_ctx (lit "   ") world0
  = (world0, Throw (Error (lit "Message cannot be empty")))
  ∧ ¬ (∃ key verdict, EvRateLimit sendMessage key verdict
                      ∈ send_events anonymous_ctx (lit "   ") world0).
Proof.
  split; [reflexivity |].
  intros [key [verdict H]]. vm_compute in H. inversion H.
Qed.

(** ** C2: content validation *)



(** ** C3: the partition key *)

(** C3. For content that passes validation, [send] makes exactly one
    rate-limit call: on [sendMessage], under a key that is a function of
    the session lookup alone, so that the same principal, or the same
    absence of one, always gives the same key. When a principal is
    resolved the key is its [_id], an identifier of the store and as
    such not the empty string; when none is resolved, because there is no
    session or because the lookup failed, the key is the literal
    "anonymous". *)
Theorem send_partition_key ctx content w :
  valid_content content →
  (∃ verdict,
     gate_verdicts (send_events ctx content w) = [verdict]
     ∧ EvRateLimit sendMessage (partition_key (auth ctx)) verdict
       ∈ send_events ctx content w)
  ∧ (∀ name key verdict,
       EvRateLimit name key verdict ∈ send_events ctx content w →
       name = sendMessage ∧ key = partition_key (auth ctx))
  ∧ match auth ctx with
    | Resolved u =>
        AuthUser._id u ≠ [] → partition_key (auth ctx) = AuthUser._id u
    | NoUser | AuthThrows _ => partition_key (auth ctx) = lit "anonymous"
    end.
Proof.
  intros Hv. rewrite send_events_valid by done.
  rewrite <- sendKey_partition_key. split; [| split].
  - eexists. split; [reflexivity |]. right. by left.
  - intros name key verdict. rewrite !elem_of_cons, elem_of_nil.
    intros [H|[H|[H|[]]]]; by inversion H.
  - rewrite sendKey_partition_key.
    destruct (auth ctx) as [u| |e]; try reflexivity.
    simpl. by destruct (AuthUser._id u).
Qed.

Lemma send_partition_key_witness :
  valid_content (lit "hi")
  ∧ AuthUser._id u1 ≠ []
  ∧ partition_key (auth (ctx_of u1 0)) = AuthUser._id u1
  ∧ (∃ verdict,
       EvRateLimit sendMessage (lit "u1") verdict
       ∈ send_events (ctx_of u1 0) (lit "hi") world0)
  ∧ ∃ verdict,
      EvRateLimit sendMessage (lit "anonymous") verdict
      ∈ send_events anonymous_ctx (lit "hi") world0.
Proof.
  assert (Hv : valid_content (lit "hi")) by (vm_compute; split; [reflexivity | discriminate]).
  assert (Hid : AuthUser._id u1 ≠ []) by (vm_compute; discriminate).
  destruct (send_partition_key (ctx_of u1 0) (lit "hi") world0 Hv)
    as [[v1 [_ H1]] [_ Hk1]].
  destruct (send_partition_key anonymous_ctx (lit "hi") world0 Hv)
    as [[v2 [_ H2]] _].
  split; [exact Hv |]. split; [exact Hid |]. split; [exact (Hk1 Hid) |].
  split; [exists v1; exact H1 | exists v2; exact H2].
Defined.

(** ** C4: a failed session lookup is an absent principal *)

Lemma unresolved_principal ctx :
  auth ctx = NoUser ∨ (∃ e, auth ctx = AuthThrows e) → principal ctx = None.
Proof. unfold principal. by intros [->|[e ->]]. Qed.

Lemma send_signed_out ctx content w :
  principal ctx = None →
  messages.send ctx content w = messages.send (signed_out ctx) content w.
Proof.
  intros Hp.
  assert (Hk : sendKey (signed_out ctx) = sendKey ctx)
    by (unfold sendKey; by rewrite Hp).
  destruct (content_cases content) as [H|[H|Hv]].
  - by rewrite !send_empty.
  - by rewrite !send_too_long.
  - rewrite !send_run by done. rewrite Hk, Hp. reflexivity.
Qed.

(** C4. When the session lookup finds no user, or throws whatever error,
    the guarded lookup of [send] yields an absent principal and throws
    nothing, and the whole request behaves as the same request made with
    no session. If its content passes validation and the gate admits the
    key "anonymous", the request returns the new id and stores a document
    with the trimmed content, no [authorId] and the [authorName]
    "Anonymous". *)
Theorem send_folds_failed_lookup ctx content w :
  auth ctx = NoUser ∨ (∃ e, auth ctx = AuthThrows e) →
  snd (try_catch (getAuthUser ctx) (fun _ => ret None) w) = Return None
  ∧ messages.send ctx content w = messages.send (signed_out ctx) content w
  ∧ (valid_content content →
     admits sendMessage (lit "anonymous") ctx w →
     snd (messages.send ctx content w) = Return (next_id w)
     ∧ db_messages (fst (messages.send ctx content w))
       = <[next_id w :=
             Message.mk (next_id w) (insert_stamp ctx) (trim content) None
               (Some (lit "Anonymous")) None]> (db_messages w)).
Proof.
  intros Hu. apply unresolved_principal in Hu.
  split; [by rewrite send_resolves, Hu |].
  split; [by apply send_signed_out |].
  intros Hv Ha.
  assert (Hk : sendKey ctx = lit "anonymous") by (unfold sendKey; by rewrite Hu).
  rewrite send_admitted by (by rewrite ?Hk).
  cbn [fst snd db_messages]. by rewrite Hu.
Qed.

Lemma send_folds_failed_lookup_witness :
  (auth broken_session_ctx = NoUser
   ∨ (∃ e, auth broken_session_ctx = AuthThrows e))
  ∧ valid_content (lit "hello")
  ∧ admits sendMessage (lit "anonymous") broken_session_ctx world0
  ∧ snd (try_catch (getAuthUser broken_session_ctx) (fun _ => ret None) world0)
    = Return None
  ∧ snd (messages.send broken_session_ctx (lit "hello") world0) = Return 0%N
  ∧ db_messages (fst (messages.send broken_session_ctx (lit "hello") world0))
    = <[0%N := Message.mk 0 0 (lit "hello") None (Some (lit "Anonymous")) None]> ∅.
Proof.
  assert (Hu : auth broken_session_ctx = NoUser
               ∨ (∃ e, auth broken_session_ctx = AuthThrows e))
    by (right; eexists; reflexivity).
  assert (Hv : valid_content (lit "hello"))
    by (vm_compute; split; [reflexivity | discriminate]).
  assert (Ha : admits sendMessage (lit "anonymous") broken_session_ctx world0)
    by (vm_compute; discriminate).
  destruct (send_folds_failed_lookup broken_session_ctx (lit "hello") world0 Hu)
    as [H1 [_ H3]].
  destruct (H3 Hv Ha) as [H4 H5].
  split; [exact Hu |]. split; [exact Hv |]. split; [exact Ha |].
  split; [exact H1 |]. split; [exact H4 | exact H5].
Defined.

(** ** C5: failed mutations, and the send the gate turns down *)

Ltac same_world :=
  let H := fresh in
  intros H; apply (f_equal fst) in H; cbn [fst] in H; subst; reflexivity.

Lemma send_failure_stored ctx content w w' e :
  messages.send ctx content w = (w', Throw e) → stored w' = stored w.
Proof.
  destruct (content_cases content) as [H|[H|Hv]].
  - rewrite send_empty by done. same_world.
  - rewrite send_too_long by done. same_world.
  - by rewrite send_run.
Qed.

Lemma remove_failure_stored ctx id w w' e :
  messages.remove ctx id w = (w', Throw e) → stored w' = stored w.
Proof.
  cbv [messages.remove requireAuth getAuthUser bind emit db_get db_delete throw ret].
  destruct (auth ctx) as [u| |e0]; cbn [db_messages next_id buckets trace];
    try same_world.
  destruct (db_messages w !! id) as [m|]; [| same_world].
  destruct (bool_decide _); [same_world | done].
Qed.

Lemma deleteAny_failure_stored ctx id w w' e :
  messages.deleteAny ctx id w = (w', Throw e) → stored w' = stored w.
Proof.
  cbv [messages.deleteAny requireAdmin requireAuth getAuthUser bind emit db_get
       db_delete throw ret].
  destruct (auth ctx) as [u| |e0]; cbn [db_messages next_id buckets trace];
    try same_world.
  destruct (is_admin_user ctx u); cbn [db_messages next_id buckets trace];
    [| same_world].
  destruct (db_messages w !! id) as [m|]; [done | same_world].
Qed.

Lemma setAdminByEmail_failure_stored ctx email isAdmin w w' e :
  users.setAdminByEmail ctx email isAdmin w = (w', Throw e) → stored w' = stored w.
Proof.
  unfold users.setAdminByEmail.
  destruct (_ || _); [same_world | done].
Qed.

Lemma remove_not_author ctx id w u m :
  auth ctx = Resolved u →
  db_messages w !! id = Some m →
  Message.authorId m ≠ Some (AuthUser._id u) →
  messages.remove ctx id w
  = ({| db_messages := db_messages w; next_id := next_id w; buckets := buckets w;
        trace := trace w ++ [EvGetAuthUser; EvDbGet id] |},
     Throw (Error (lit "Not authorized to delete this message"))).
Proof.
  intros Hu Hm Hne.
  cbv [messages.remove requireAuth getAuthUser bind emit db_get db_delete throw ret].
  rewrite Hu. cbn [db_messages next_id buckets trace]. rewrite Hm.
  rewrite bool_decide_eq_true_2 by done. by rewrite <- app_assoc.
Qed.

Lemma mutation_errors_leave_store ctx call w w' e :
  run_mutation ctx call w = (w', Throw e) → stored w' = stored w.
Proof.
  intros H.
  destruct call as [content|id|id|email isAdmin]; unfold run_mutation, bind, ret in H.
  - destruct (messages.send ctx content w) as [w1 [v|e1]] eqn:E; [done |].
    apply (f_equal fst) in H; cbn [fst] in H; subst w1. by eapply send_failure_stored.
  - destruct (messages.remove ctx id w) as [w1 [v|e1]] eqn:E; [done |].
    apply (f_equal fst) in H; cbn [fst] in H; subst w1. by eapply remove_failure_stored.
  - destruct (messages.deleteAny ctx id w) as [w1 [v|e1]] eqn:E; [done |].
    apply (f_equal fst) in H; cbn [fst] in H; subst w1. by eapply deleteAny_failure_stored.
  - destruct (users.setAdminByEmail ctx email isAdmin w) as [w1 [v|e1]] eqn:E; [done |].
    apply (f_equal fst) in H; cbn [fst] in H; subst w1.
    by eapply setAdminByEmail_failure_stored.
Qed.

(** C5, and where the code departs from it. Whichever mutation is
    invoked ([send], [remove], [deleteAny] or [setAdminByEmail]), an
    invocation that ends in an error leaves what is stored as it was, and
    a [remove] by an authenticated user who is not the author ends in
    "Not authorized to delete this message" with the document still in
    the store. But a [send] that the rate-limit gate turns down is not
    such an invocation: the gate's verdict is a rejection, [send] does
    not look at it, returns the new id and stores the message. *)
Theorem send_turned_down_by_gate_is_stored ctx content w :
  (∀ call w' e,
     run_mutation ctx call w = (w', Throw e) →
     stored w' = stored w ∧ db_messages w' = db_messages w)
  ∧ (∀ u id m,
       auth ctx = Resolved u →
       db_messages w !! id = Some m →
       Message.authorId m ≠ Some (AuthUser._id u) →
       snd (messages.remove ctx id w)
       = Throw (Error (lit "Not authorized to delete this message"))
       ∧ db_messages (fst (messages.remove ctx id w)) !! id = Some m)
  ∧ (valid_content content →
     ¬ admits sendMessage (sendKey ctx) ctx w →
     gate_verdicts (send_events ctx content w)
     = [Rejected (RateLimiter.retryAfter (RATE_LIMIT_DEFS sendMessage)
                    (available sendMessage (sendKey ctx) ctx w))]
     ∧ snd (messages.send ctx content w) = Return (next_id w)
     ∧ db_messages (fst (messages.send ctx content w))
       = <[next_id w :=
             Message.mk (next_id w) (insert_stamp ctx) (trim content)
               (AuthUser._id <$> principal ctx)
               (Some (js_nullish (principal ctx ≫= AuthUser.name)
                        (lit "Anonymous")))
               None]> (db_messages w)).
Proof.
  split; [| split].
  - intros call w' e H.
    pose proof (mutation_errors_leave_store ctx call w w' e H) as Hs.
    split; [done |]. unfold stored in Hs. congruence.
  - intros u id m Hu Hm Hne. by rewrite (remove_not_author ctx id w u m).
  - intros Hv Ha. unfold send_events. rewrite send_rejected by done.
    cbn [fst snd trace db_messages]. by rewrite drop_app_length.
Qed.

Lemma send_turned_down_by_gate_is_stored_witness :
  run_mutation (ctx_of u1 5) (Remove 0%N) board1
  = (fst (run_mutation (ctx_of u1 5) (Remove 0%N) board1),
     Throw (Error (lit "Not authorized to delete this message")))
  ∧ stored (fst (run_mutation (ctx_of u1 5) (Remove 0%N) board1)) = stored board1
  ∧ auth (ctx_of u1 5) = Resolved u1
  ∧ db_messages board1 !! 0%N = Some hello_by_u2
  ∧ Message.authorId hello_by_u2 ≠ Some (AuthUser._id u1)
  ∧ snd (messages.remove (ctx_of u1 5) 0%N board1)
    = Throw (Error (lit "Not authorized to delete this message"))
  ∧ db_messages (fst (messages.remove (ctx_of u1 5) 0%N board1)) !! 0%N
    = Some hello_by_u2
  ∧ valid_content (lit "hi")
  ∧ ¬ admits sendMessage (sendKey (stamped (ctx_of u1 0) 15))
        (stamped (ctx_of u1 0) 15) drained_board
  ∧ gate_verdicts (send_events (stamped (ctx_of u1 0) 15) (lit "hi") drained_board)
    = [Rejected 6000]
  ∧ snd (messages.send (stamped (ctx_of u1 0) 15) (lit "hi") drained_board)
    = Return 15%N
  ∧ size (db_messages
            (fst (messages.send (stamped (ctx_of u1 0) 15) (lit "hi") drained_board)))
    = 16%nat.
Proof.
  assert (H1 : run_mutation (ctx_of u1 5) (Remove 0%N) board1
               = (fst (run_mutation (ctx_of u1 5) (Remove 0%N) board1),
                  Throw (Error (lit "Not authorized to delete this message"))))
    by (vm_compute; reflexivity).
  assert (H2 : auth (ctx_of u1 5) = Resolved u1) by reflexivity.
  assert (H3 : db_messages board1 !! 0%N = Some hello_by_u2)
    by (vm_compute; reflexivity).
  assert (H4 : Message.authorId hello_by_u2 ≠ Some (AuthUser._id u1))
    by (vm_compute; discriminate).
  assert (H5 : valid_content (lit "hi"))
    by (vm_compute; split; [reflexivity | discriminate]).
  assert (H6 : ¬ admits sendMessage (sendKey (stamped (ctx_of u1 0) 15))
                   (stamped (ctx_of u1 0) 15) drained_board)
    by (vm_compute; intros H; apply H; reflexivity).
  destruct (send_turned_down_by_gate_is_stored (ctx_of u1 5) (lit "hi") board1)
    as [Ha [Hb _]].
  destruct (send_turned_down_by_gate_is_stored (stamped (ctx_of u1 0) 15) (lit "hi")
              drained_board) as [_ [_ Hc]].
  destruct (Hc H5 H6) as [Hc1 [Hc2 Hc3]].
  split; [exact H1 |]. split; [exact (proj1 (Ha _ _ _ H1)) |].
  split; [exact H2 |]. split; [exact H3 |]. split; [exact H4 |].
  split; [exact (proj1 (Hb u1 0%N hello_by_u2 H2 H3 H4)) |].
  split; [exact (proj2 (Hb u1 0%N hello_by_u2 H2 H3 H4)) |].
  split; [exact H5 |]. split; [exact H6 |].
  split; [exact Hc1 |]. split; [exact Hc2 |].
  rewrite Hc3. vm_compute. reflexivity.
Defined.

(** ** C6: the quota table *)

(** C6. Read in the order it is written, the table the code hands to the
    rate limiter is the table of the specification, row for row and field
    for field; the seven names are all the names there are; and every
    entry has a capacity of at least its rate. *)
Theorem quota_table_matches_spec :
  quota_row <$> RateLimitNames = spec_quota_table
  ∧ (∀ n, n ∈ RateLimitNames)
  ∧ (∀ n, kind (RATE_LIMIT_DEFS n) = token_bucket)
  ∧ (∀ n, rate (RATE_LIMIT_DEFS n) <= capacity (RATE_LIMIT_DEFS n)).
Proof.
  split; [reflexivity |].
  split; [intros []; unfold RateLimitNames; set_solver |].
  split; [intros []; reflexivity |].
  intros []; cbn; lia.
Qed.

(** ** C9: [setAdminByEmail] *)

(** C9. Whoever calls [setAdminByEmail], with whatever flag, one of two
    things happens. If the email contains '@', the call returns
    [success: true] with the email, the action and the instruction
    string, and all it does is write one line to the console: what is
    stored is unchanged. If the email contains no '@', the call throws
    "Invalid email address" and the world is unchanged. *)
Theorem setAdminByEmail_writes_nothing ctx email isAdmin w :
  (includes email 0x40%N = true
   ∧ ∃ r line,
       users.setAdminByEmail ctx email isAdmin w
       = ({| db_messages := db_messages w; next_id := next_id w;
             buckets := buckets w; trace := trace w ++ [EvConsoleLog line] |},
          Return r)
       ∧ users.success r = true
       ∧ users.email r = email
       ∧ users.action r = (if isAdmin then lit "grant" else lit "revoke")
       ∧ users.instruction r
         = (if isAdmin
            then lit "Add " ++ users.quote ++ email ++ users.quote
                 ++ lit " to ADMIN_EMAILS in convex/lib/config.ts"
            else lit "Remove " ++ users.quote ++ email ++ users.quote
                 ++ lit " from ADMIN_EMAILS in convex/lib/config.ts")
       ∧ stored (fst (users.setAdminByEmail ctx email isAdmin w)) = stored w)
  ∨ (includes email 0x40%N = false
     ∧ users.setAdminByEmail ctx email isAdmin w
       = (w, Throw (Error (lit "Invalid email address")))).
Proof.
  unfold users.setAdminByEmail.
  destruct (includes email 0x40%N) eqn:Hat.
  - left. split; [done |].
    destruct email as [|c r]; [discriminate Hat |].
    cbn [orb negb]. cbv [bind emit ret]. do 2 eexists.
    split; [reflexivity |]. by cbn.
  - right. split; [done |]. by rewrite orb_true_r.
Qed.

(** ** The token bucket *)

Lemma quota_positive name :
  0 < period (RATE_LIMIT_DEFS name)
  ∧ 0 < rate (RATE_LIMIT_DEFS name)
  ∧ 0 < capacity (RATE_LIMIT_DEFS name).
Proof. destruct name; cbn; lia. Qed.

Lemma tokens_le_capacity cfg b t :
  RateLimiter.tokens cfg b t <= capacity cfg * period cfg.
Proof. destruct b; simpl; lia. Qed.

Lemma gate_verdicts_app l1 l2 :
  gate_verdicts (l1 ++ l2) = gate_verdicts l1 ++ gate_verdicts l2.
Proof. apply omap_app. Qed.

(** One token less after an admitted call, read at the same clock. *)
Lemma available_after_token name key ctx w (m : nat) bs :
  available name key ctx w = Z.of_nat (S m) * period (RATE_LIMIT_DEFS name) →
  bs = <[(name, key) :=
           {| value := available name key ctx w - period (RATE_LIMIT_DEFS name);
              ts := now ctx |}]> (buckets w) →
  RateLimiter.tokens (RATE_LIMIT_DEFS name) (bs !! (name, key)) (now ctx)
  = Z.of_nat m * period (RATE_LIMIT_DEFS name).
Proof.
  intros Hav ->. destruct (quota_positive name) as [Hp [Hr Hc]].
  rewrite lookup_insert_eq. cbn [RateLimiter.tokens value ts].
  pose proof (tokens_le_capacity (RATE_LIMIT_DEFS name)
                (buckets w !! (name, key)) (now ctx)) as Hle.
  fold (available name key ctx w) in Hle. nia.
Qed.


(** Sends in one instant under one key, on a bucket that holds [m]
    tokens: all of them return an id, the gate admits the first [m] calls
    and rejects the others, and the bucket keeps the tokens not taken.
    The requests may differ in content and in the creation time the
    store gives their documents. *)
Lemma send_all_from k t reqs : ∀ m w,
  Forall (fun r => sendKey r.1 = k ∧ now r.1 = t ∧ valid_content r.2) reqs →
  RateLimiter.tokens (RATE_LIMIT_DEFS sendMessage)
    (buckets w !! (sendMessage, k)) t = Z.of_nat m * 60000 →
  ∃ ids evs,
    snd (send_all reqs w) = Return <$> ids
    ∧ length ids = length reqs
    ∧ trace (fst (send_all reqs w)) = trace w ++ evs
    ∧ gate_verdicts evs
      = replicate (length reqs `min` m) Allowed
        ++ replicate (length reqs - m) (Rejected 6000)
    ∧ RateLimiter.tokens (RATE_LIMIT_DEFS sendMessage)
        (buckets (fst (send_all reqs w)) !! (sendMessage, k)) t
      = Z.of_nat (m - length reqs) * 60000.
Proof.
  induction reqs as [|[ctx content] reqs IH]; intros m w Hall Hav.
  { exists [], []. cbn [send_all fst snd length]. rewrite app_nil_r, Nat.sub_0_r.
    by repeat split. }
  apply Forall_cons in Hall as [[Hk [Ht Hv]] Hall]. cbn [fst snd] in Hk, Ht, Hv.
  subst k t. fold (available sendMessage (sendKey ctx) ctx w) in Hav.
  cbn [send_all length]. destruct m as [|m].
  - rewrite send_rejected by (done || (unfold admits; cbn; lia)).
    match goal with |- context [send_all reqs ?w1] =>
      destruct (IH 0%nat w1 Hall Hav) as [ids [evs [Hids [Hlen [Htr [Hg Hd]]]]]]
    end.
    destruct (send_all reqs _) as [w2 rs]. cbn [fst snd trace] in *.
    eexists (next_id w :: ids), _.
    split; [by rewrite Hids |]. split; [cbn; lia |].
    split; [rewrite Htr, <- app_assoc; reflexivity |].
    split; [| exact Hd].
    rewrite gate_verdicts_app, Hg, Hav, !Nat.min_0_r, !Nat.sub_0_r. reflexivity.
  - rewrite send_admitted by (done || (unfold admits; cbn; lia)).
    match goal with |- context [send_all reqs ?w1] =>
      destruct (IH m w1 Hall) as [ids [evs [Hids [Hlen [Htr [Hg Hd]]]]]];
        [by apply (available_after_token sendMessage (sendKey ctx) ctx w m) |]
    end.
    destruct (send_all reqs _) as [w2 rs]. cbn [fst snd trace] in *.
    eexists (next_id w :: ids), _.
    split; [by rewrite Hids |]. split; [cbn; lia |].
    split; [rewrite Htr, <- app_assoc; reflexivity |].
    split; [| exact Hd].
    rewrite gate_verdicts_app, Hg. reflexivity.
Qed.



(** ** C7: eleven sends from a fresh bucket *)

Lemma send_all_within_burst k reqs : ∀ m t0 w,
  (∀ t, t0 <= t →
     Z.of_nat m * 60000
     <= RateLimiter.tokens (RATE_LIMIT_DEFS sendMessage)
          (buckets w !! (sendMessage, k)) t) →
  Forall (fun r => sendKey r.1 = k ∧ valid_content r.2) reqs →
  Sorted Z.le (t0 :: (now ∘ fst <$> reqs)) →
  (length reqs <= m)%nat →
  (∃ ids, snd (send_all reqs w) = Return <$> ids ∧ length ids = length reqs)
  ∧ (∃ evs, trace (fst (send_all reqs w)) = trace w ++ evs
            ∧ gate_verdicts evs = replicate (length reqs) Allowed).
Proof.
  induction reqs as [|[ctx content] reqs IH]; intros m t0 w Hinv Hall Hsort Hlen.
  { split; [by exists [] | exists []; cbn [send_all fst]; by rewrite app_nil_r]. }
  apply Forall_cons in Hall as [[Hk Hv] Hall]. cbn [fst snd] in Hk, Hv.
  cbn [fmap list_fmap compose fst] in Hsort.
  apply Sorted_inv in Hsort as [Hsort Hhd]. apply HdRel_inv in Hhd.
  cbn [length] in Hlen. destruct m as [|m]; [lia |].
  pose proof (Hinv (now ctx) Hhd) as Hnow. subst k.
  fold (available sendMessage (sendKey ctx) ctx w) in Hnow.
  cbn [send_all]. rewrite send_admitted by (done || (unfold admits; cbn; lia)).
  match goal with |- context [send_all reqs ?w1] =>
    destruct (IH m (now ctx) w1) as [[ids [Hids Hl]] [evs [Htr Hg]]]
  end; [| done | done | lia |].
  - intros t Ht. cbn [buckets]. rewrite lookup_insert_eq.
    cbn [RateLimiter.tokens value ts].
    pose proof (tokens_le_capacity (RATE_LIMIT_DEFS sendMessage)
                  (buckets w !! (sendMessage, sendKey ctx)) (now ctx)) as Hle.
    fold (available sendMessage (sendKey ctx) ctx w) in Hle. cbn in Hle |- *. lia.
  - destruct (send_all reqs _) as [w2 rs]. cbn [fst snd trace] in *. split.
    + exists (next_id w :: ids). rewrite Hids. split; [done |]. cbn. lia.
    + eexists. split; [rewrite Htr, <- app_assoc; reflexivity |].
      rewrite gate_verdicts_app, Hg. reflexivity.
Qed.

(** C7, as the code has it. A [sendMessage] bucket that was never used
    starts with its capacity of 15 tokens, not with the rate of 10: when
    one authenticated user sends up to 15 messages with acceptable
    content, however the sends are spread in time, every one of them is
    admitted by the gate and returns an id. In particular the 11th of 11
    sends is admitted. *)
Theorem fresh_bucket_admits_burst u reqs w :
  buckets w !! (sendMessage, partition_key (Resolved u)) = None →
  Forall (fun r => auth r.1 = Resolved u ∧ valid_content r.2) reqs →
  Sorted Z.le (now ∘ fst <$> reqs) →
  (length reqs <= 15)%nat →
  (∃ ids, snd (send_all reqs w) = Return <$> ids ∧ length ids = length reqs)
  ∧ (∃ evs, trace (fst (send_all reqs w)) = trace w ++ evs
            ∧ gate_verdicts evs = replicate (length reqs) Allowed).
Proof.
  intros Hfresh Hall Hsort Hlen.
  destruct reqs as [|r0 reqs0] eqn:E.
  { split; [by exists [] | exists []; cbn [send_all fst]; by rewrite app_nil_r]. }
  rewrite <- E in *.
  apply (send_all_within_burst (partition_key (Resolved u)) reqs 15 (now r0.1) w).
  - intros t _. rewrite Hfresh. cbn. lia.
  - eapply Forall_impl; [exact Hall |]. intros [ctx c] [Ha Hv]. split; [| done].
    cbn [fst] in *. by rewrite sendKey_partition_key, Ha.
  - constructor; [done |]. subst reqs. by constructor.
  - done.
Qed.

Lemma fresh_bucket_admits_burst_witness :
  buckets world0 !! (sendMessage, partition_key (Resolved u1)) = None
  ∧ Forall (fun r => auth r.1 = Resolved u1 ∧ valid_content r.2) eleven_sends
  ∧ Sorted Z.le (now ∘ fst <$> eleven_sends)
  ∧ (length eleven_sends <= 15)%nat
  ∧ (∃ ids, snd (send_all eleven_sends world0) = Return <$> ids
            ∧ length ids = length eleven_sends)
  ∧ (∃ evs, trace (fst (send_all eleven_sends world0)) = trace world0 ++ evs
            ∧ gate_verdicts evs = replicate (length eleven_sends) Allowed).
Proof.
  assert (H1 : buckets world0 !! (sendMessage, partition_key (Resolved u1)) = None)
    by reflexivity.
  assert (H2 : Forall (fun r => auth r.1 = Resolved u1 ∧ valid_content r.2)
                 eleven_sends).
  { repeat constructor; vm_compute; discriminate. }
  assert (H3 : Sorted Z.le (now ∘ fst <$> eleven_sends)).
  { repeat constructor; vm_compute; discriminate. }
  assert (H4 : (length eleven_sends <= 15)%nat) by (vm_compute; lia).
  split; [exact H1 |]. split; [exact H2 |]. split; [exact H3 |].
  split; [exact H4 |].
  exact (fresh_bucket_admits_burst u1 eleven_sends world0 H1 H2 H3 H4).
Defined.

(** C7 as the specification words it fails: user [u1] starts from a bucket
    that was never used and sends 11 messages one second apart, well
    within 60 seconds; the 11th send is not rejected: the gate admits it
    and it returns the id of the 11th stored message. *)
Lemma eleventh_send_is_admitted :
  buckets world0 !! (sendMessage, lit "u1") = None
  ∧ snd (send_all eleven_sends world0) !! 10%nat = Some (Return 10%N)
  ∧ size (db_messages (fst (send_all eleven_sends world0))) = 11%nat
  ∧ gate_verdicts (trace (fst (send_all eleven_sends world0))) !! 10%nat
    = Some Allowed.
Proof.
  split; [reflexivity |]. split; [by vm_compute |]. split; by vm_compute.
Qed.

(** ** C10: the public [list] query *)

Lemma newer_rel_spec a b :
  newer_rel a b
  ↔ Message._creationTime b < Message._creationTime a
    ∨ (Message._creationTime b = Message._creationTime a
       ∧ (Message._id b <= Message._id a)%N).
Proof.
  unfold newer_rel, newer.
  rewrite orb_true_iff, andb_true_iff, Z.ltb_lt, Z.eqb_eq, N.leb_le. tauto.
Qed.

#[local] Instance newer_rel_total : Total newer_rel.
Proof. intros a b. rewrite !newer_rel_spec. lia. Qed.

#[local] Instance newer_rel_trans : Transitive newer_rel.
Proof. intros a b c. rewrite !newer_rel_spec. lia. Qed.

Lemma newer_rel_creationTime a b :
  newer_rel a b → Message._creationTime b <= Message._creationTime a.
Proof. rewrite newer_rel_spec. lia. Qed.

Lemma order_desc_sorted (l : list Message.t) n :
  StronglySorted newer_rel (take n (merge_sort newer_rel l)).
Proof.
  pose proof (StronglySorted_merge_sort newer_rel l) as H.
  rewrite <- (take_drop n (merge_sort newer_rel l)) in H.
  by apply StronglySorted_app_1_l in H.
Qed.

Lemma order_desc_newest (l : list Message.t) n d d' :
  d ∈ l →
  d ∉ take n (merge_sort newer_rel l) →
  d' ∈ take n (merge_sort newer_rel l) →
  newer_rel d' d.
Proof.
  intros Hd Hout Hin.
  pose proof (StronglySorted_merge_sort newer_rel l) as H.
  rewrite <- (take_drop n (merge_sort newer_rel l)) in H.
  apply (StronglySorted_app_1_elem_of _ _ _ _ _ H Hin).
  rewrite <- (merge_sort_Permutation newer_rel l) in Hd.
  rewrite <- (take_drop n (merge_sort newer_rel l)) in Hd.
  apply elem_of_app in Hd as [Hd|Hd]; [by destruct Hout | done].
Qed.

Lemma stored_documents (w : World) d :
  d ∈ snd <$> map_to_list (db_messages w) ↔ ∃ id, db_messages w !! id = Some d.
Proof.
  rewrite list_elem_of_fmap. split.
  - intros [[id d'] [-> H]]. exists id. by apply elem_of_map_to_list in H.
  - intros [id H]. exists (id, d). split; [done |]. by apply elem_of_map_to_list.
Qed.

(** C10. Whatever the store holds, [list] returns at most 50 documents,
    namely as many as there are up to 50, each of them a stored message;
    they come most recently created first; no stored message that is left
    out was created after one that is returned; and the query writes
    nothing: the only trace it leaves is the read in the call log. *)
Theorem list_returns_newest_50 ctx w :
  ∃ docs,
    messages.list ctx w
    = ({| db_messages := db_messages w; next_id := next_id w;
          buckets := buckets w; trace := trace w ++ [EvDbQuery] |}, Return docs)
    ∧ stored (fst (messages.list ctx w)) = stored w
    ∧ (length docs <= 50)%nat
    ∧ length docs = (50 `min` size (db_messages w))%nat
    ∧ (∀ d, d ∈ docs → ∃ id, db_messages w !! id = Some d)
    ∧ StronglySorted newer_rel docs
    ∧ (∀ i j a b,
         docs !! i = Some a → docs !! j = Some b → (i < j)%nat →
         Message._creationTime b <= Message._creationTime a)
    ∧ (∀ id d d',
         db_messages w !! id = Some d → d ∉ docs → d' ∈ docs →
         Message._creationTime d <= Message._creationTime d').
Proof.
  set (l := snd <$> map_to_list (db_messages w)).
  exists (take 50 (merge_sort newer_rel l)). split; [reflexivity |]. cbn [fst].
  assert (Hlen : length (take 50 (merge_sort newer_rel l))
                 = (50 `min` size (db_messages w))%nat).
  { rewrite length_take, (merge_sort_Permutation newer_rel l).
    unfold l. by rewrite length_fmap, length_map_to_list. }
  split; [reflexivity |]. split; [lia |]. split; [exact Hlen |].
  split; [| split; [apply order_desc_sorted | split]].
  - intros d Hd. apply stored_documents. fold l.
    rewrite <- (merge_sort_Permutation newer_rel l).
    by apply (subseteq_take 50).
  - intros i j a b Hi Hj Hij. apply newer_rel_creationTime.
    pose proof (order_desc_sorted l 50) as Hs.
    rewrite <- (take_drop_middle _ _ _ Hi) in Hs.
    apply StronglySorted_app_1_r, StronglySorted_cons in Hs as [Hs _].
    rewrite Forall_forall in Hs. apply Hs.
    apply list_elem_of_lookup. exists (j - S i)%nat.
    rewrite lookup_drop. rewrite <- Hj. f_equal. lia.
  - intros id d d' Hd Hout Hin. apply newer_rel_creationTime.
    apply (order_desc_newest l 50); [| done | done].
    apply stored_documents. by exists id.
Qed.

(** A board of 60 messages, one posted every second: [list] hands back
    the 50 latest, from the last one posted down to the eleventh. *)
Example list_crowded_board :
  match snd (messages.list anonymous_ctx crowded_board) with
  | Return docs => Message._id <$> docs
  | Throw _ => []
  end = N.of_nat <$> reverse (seq 10 50).
Proof. by vm_compute. Qed.

(** * Further properties of the code *)

(** ** [messages.remove] and [messages.send] together *)

Lemma trimStart_fixed s :
  from_option isWhiteSpace false (head s) = false → trimStart s = s.
Proof. destruct s as [|c r]; [done |]. simpl. by intros ->. Qed.

Lemma trimEnd_fixed s :
  from_option isWhiteSpace false (last s) = false → trimEnd s = s.
Proof.
  intros H. unfold trimEnd. rewrite trimStart_fixed; [apply rev_involutive |].
  rewrite rev_alt. change (rev_append ?l []) with (reverse l).
  by rewrite head_reverse.
Qed.

Lemma trim_idempotent s : trim (trim s) = trim s.
Proof.
  unfold trim at 1. rewrite trimStart_fixed.
  - apply trimEnd_fixed.
    destruct (last (trim s)) as [c|] eqn:E; [| done]. by apply trim_last in E.
  - destruct (head (trim s)) as [c|] eqn:E; [| done]. by apply trim_head in E.
Qed.

Lemma remove_run ctx id w u :
  auth ctx = Resolved u →
  messages.remove ctx id w
  = match db_messages w !! id with
    | None =>
        ({| db_messages := db_messages w; next_id := next_id w;
            buckets := buckets w;
            trace := trace w ++ [EvGetAuthUser; EvDbGet id] |},
         Throw (Error (lit "Message not found")))
    | Some m =>
        if bool_decide (Message.authorId m ≠ Some (AuthUser._id u))
        then ({| db_messages := db_messages w; next_id := next_id w;
                 buckets := buckets w;
                 trace := trace w ++ [EvGetAuthUser; EvDbGet id] |},
              Throw (Error (lit "Not authorized to delete this message")))
        else ({| db_messages := delete id (db_messages w); next_id := next_id w;
                 buckets := buckets w;
                 trace := trace w ++ [EvGetAuthUser; EvDbGet id; EvDbDelete id] |},
              Return tt)
    end.
Proof.
  intros Hu.
  cbv [messages.remove requireAuth getAuthUser bind emit db_get db_delete throw ret].
  rewrite Hu. cbn [db_messages next_id buckets trace].
  destruct (db_messages w !! id) as [m|]; [| by rewrite <- app_assoc].
  destruct (bool_decide _); cbn [db_messages next_id buckets trace];
    by rewrite <- !app_assoc.
Qed.

(** X1. The author of a message can delete it: [remove] returns normally,
    the message is gone, every other message is as before, and neither
    the id counter nor any quota bucket is touched. *)
Theorem remove_by_author_deletes ctx id w u m :
  auth ctx = Resolved u →
  db_messages w !! id = Some m →
  Message.authorId m = Some (AuthUser._id u) →
  snd (messages.remove ctx id w) = Return tt
  ∧ db_messages (fst (messages.remove ctx id w)) !! id = None
  ∧ (∀ id', id' ≠ id →
       db_messages (fst (messages.remove ctx id w)) !! id' = db_messages w !! id')
  ∧ next_id (fst (messages.remove ctx id w)) = next_id w
  ∧ buckets (fst (messages.remove ctx id w)) = buckets w.
Proof.
  intros Hu Hm Ha. rewrite (remove_run ctx id w u Hu), Hm.
  rewrite bool_decide_eq_false_2 by (intros H; by apply H).
  cbn [fst snd db_messages next_id buckets].
  split; [done |]. split; [apply lookup_delete_eq |].
  split; [| done]. intros id' Hne. by apply lookup_delete_ne.
Qed.

Lemma remove_by_author_deletes_witness :
  auth (ctx_of u2 5) = Resolved u2
  ∧ db_messages board1 !! 0%N = Some hello_by_u2
  ∧ Message.authorId hello_by_u2 = Some (AuthUser._id u2)
  ∧ snd (messages.remove (ctx_of u2 5) 0%N board1) = Return tt
  ∧ db_messages (fst (messages.remove (ctx_of u2 5) 0%N board1)) !! 0%N = None.
Proof.
  assert (H1 : auth (ctx_of u2 5) = Resolved u2) by reflexivity.
  assert (H2 : db_messages board1 !! 0%N = Some hello_by_u2)
    by (vm_compute; reflexivity).
  assert (H3 : Message.authorId hello_by_u2 = Some (AuthUser._id u2))
    by reflexivity.
  destruct (remove_by_author_deletes (ctx_of u2 5) 0%N board1 u2 hello_by_u2 H1 H2 H3)
    as [Ha [Hb _]].
  split; [exact H1 |]. split; [exact H2 |]. split; [exact H3 |].
  split; [exact Ha | exact Hb].
Defined.

(** X2. A message posted without a session has no author, so [remove]
    refuses it to every signed-in user, and an id that is not in the
    store gives "Message not found"; in both cases the store is as
    before. *)
Theorem remove_refuses_anonymous_and_unknown ctx id w u :
  auth ctx = Resolved u →
  (db_messages w !! id = None →
     snd (messages.remove ctx id w) = Throw (Error (lit "Message not found"))
     ∧ stored (fst (messages.remove ctx id w)) = stored w)
  ∧ (∀ m, db_messages w !! id = Some m → Message.authorId m = None →
       snd (messages.remove ctx id w)
       = Throw (Error (lit "Not authorized to delete this message"))
       ∧ stored (fst (messages.remove ctx id w)) = stored w).
Proof.
  intros Hu. rewrite (remove_run ctx id w u Hu). split.
  - by intros ->.
  - intros m -> Hnone. by rewrite bool_decide_eq_true_2 by (by rewrite Hnone).
Qed.

Lemma remove_refuses_anonymous_and_unknown_witness :
  auth (ctx_of u1 9) = Resolved u1
  ∧ db_messages world0 !! 7%N = None
  ∧ snd (messages.remove (ctx_of u1 9) 7%N world0)
    = Throw (Error (lit "Message not found"))
  ∧ stored (fst (messages.remove (ctx_of u1 9) 7%N world0)) = stored world0.
Proof.
  assert (H1 : auth (ctx_of u1 9) = Resolved u1) by reflexivity.
  assert (H2 : db_messages world0 !! 7%N = None) by reflexivity.
  destruct (remove_refuses_anonymous_and_unknown (ctx_of u1 9) 7%N world0 u1 H1)
    as [Ha _].
  split; [exact H1 |]. split; [exact H2 |]. exact (Ha H2).
Defined.

(** X3. Post and take back: when a signed-in user's [send] is admitted
    and the same user then calls [remove] on the id it returned, the
    [remove] succeeds and the messages are exactly what they were before
    the [send], provided the id handed out was not in use. *)
Theorem send_then_remove_restores ctx ctx' content w u :
  auth ctx = Resolved u →
  auth ctx' = Resolved u →
  valid_content content →
  admits sendMessage (sendKey ctx) ctx w →
  db_messages w !! next_id w = None →
  snd (messages.send ctx content w) = Return (next_id w)
  ∧ snd (messages.remove ctx' (next_id w) (fst (messages.send ctx content w)))
    = Return tt
  ∧ db_messages
      (fst (messages.remove ctx' (next_id w) (fst (messages.send ctx content w))))
    = db_messages w.
Proof.
  intros Hu Hu' Hv Ha Hfresh. rewrite send_admitted by done.
  cbn [fst snd]. split; [done |].
  rewrite (remove_run ctx' _ _ u Hu'). cbn [db_messages].
  rewrite lookup_insert_eq. unfold principal. rewrite Hu. cbn [fmap option_fmap option_map Message.authorId].
  rewrite bool_decide_eq_false_2 by (intros H; by apply H).
  cbn [fst snd db_messages]. split; [done |].
  by rewrite delete_insert_eq, delete_id.
Qed.

Lemma send_then_remove_restores_witness :
  auth (ctx_of u1 1) = Resolved u1
  ∧ auth (ctx_of u1 7) = Resolved u1
  ∧ valid_content (lit "hello")
  ∧ admits sendMessage (sendKey (ctx_of u1 1)) (ctx_of u1 1) board1
  ∧ db_messages board1 !! next_id board1 = None
  ∧ snd (messages.remove (ctx_of u1 7) (next_id board1)
           (fst (messages.send (ctx_of u1 1) (lit "hello") board1)))
    = Return tt
  ∧ db_messages
      (fst (messages.remove (ctx_of u1 7) (next_id board1)
              (fst (messages.send (ctx_of u1 1) (lit "hello") board1))))
    = db_messages board1.
Proof.
  assert (H1 : auth (ctx_of u1 1) = Resolved u1) by reflexivity.
  assert (H2 : auth (ctx_of u1 7) = Resolved u1) by reflexivity.
  assert (H3 : valid_content (lit "hello"))
    by (vm_compute; split; [reflexivity | discriminate]).
  assert (H4 : admits sendMessage (sendKey (ctx_of u1 1)) (ctx_of u1 1) board1)
    by (vm_compute; discriminate).
  assert (H5 : db_messages board1 !! next_id board1 = None)
    by (vm_compute; reflexivity).
  destruct (send_then_remove_restores (ctx_of u1 1) (ctx_of u1 7) (lit "hello")
              board1 u1 H1 H2 H3 H4 H5) as [_ [Ha Hb]].
  split; [exact H1 |]. split; [exact H2 |]. split; [exact H3 |].
  split; [exact H4 |]. split; [exact H5 |]. split; [exact Ha | exact Hb].
Defined.

(** ** Invariants the mutations keep *)

Lemma run_mutation_world ctx call w :
  fst (run_mutation ctx call w)
  = match call with
    | Send content => fst (messages.send ctx content w)
    | Remove id => fst (messages.remove ctx id w)
    | DeleteAny id => fst (messages.deleteAny ctx id w)
    | SetAdminByEmail email isAdmin => fst (users.setAdminByEmail ctx email isAdmin w)
    end.
Proof.
  destruct call; unfold run_mutation, bind, ret;
    match goal with |- context [let (_, _) := ?m in _] => destruct m as [w1 [v|e]] end;
    reflexivity.
Qed.

Lemma send_world ctx content w :
  (db_messages (fst (messages.send ctx content w)) = db_messages w
   ∧ next_id (fst (messages.send ctx content w)) = next_id w)
  ∨ (valid_content content
     ∧ db_messages (fst (messages.send ctx content w))
       = <[next_id w :=
             Message.mk (next_id w) (insert_stamp ctx) (trim content)
               (AuthUser._id <$> principal ctx)
               (Some (js_nullish (principal ctx ≫= AuthUser.name) (lit "Anonymous")))
               None]> (db_messages w)
     ∧ next_id (fst (messages.send ctx content w)) = N.succ (next_id w)).
Proof.
  destruct (content_cases content) as [H|[H|Hv]].
  - left. by rewrite send_empty.
  - left. by rewrite send_too_long.
  - right. by rewrite send_run.
Qed.

Lemma remove_world ctx id w :
  next_id (fst (messages.remove ctx id w)) = next_id w
  ∧ buckets (fst (messages.remove ctx id w)) = buckets w
  ∧ (db_messages (fst (messages.remove ctx id w)) = db_messages w
     ∨ db_messages (fst (messages.remove ctx id w)) = delete id (db_messages w)).
Proof.
  cbv [messages.remove requireAuth getAuthUser bind emit db_get db_delete throw ret].
  destruct (auth ctx) as [u| |e0]; cbn [db_messages next_id buckets trace fst];
    try by auto.
  destruct (db_messages w !! id) as [m|]; [| by auto].
  destruct (bool_decide _); cbn [db_messages next_id buckets trace fst]; by auto.
Qed.

Lemma deleteAny_world ctx id w :
  next_id (fst (messages.deleteAny ctx id w)) = next_id w
  ∧ buckets (fst (messages.deleteAny ctx id w)) = buckets w
  ∧ (db_messages (fst (messages.deleteAny ctx id w)) = db_messages w
     ∨ db_messages (fst (messages.deleteAny ctx id w)) = delete id (db_messages w)).
Proof.
  cbv [messages.deleteAny requireAdmin requireAuth getAuthUser bind emit db_get
       db_delete throw ret].
  destruct (auth ctx) as [u| |e0]; cbn [db_messages next_id buckets trace fst];
    try by auto.
  destruct (is_admin_user ctx u); cbn [db_messages next_id buckets trace fst];
    [| by auto].
  destruct (db_messages w !! id) as [m|]; cbn [db_messages next_id buckets trace fst];
    by auto.
Qed.

Lemma setAdminByEmail_world ctx email isAdmin w :
  stored (fst (users.setAdminByEmail ctx email isAdmin w)) = stored w.
Proof.
  unfold users.setAdminByEmail. by destruct (_ || _).
Qed.

Lemma delete_keeps_invariants (w w' : World) id :
  next_id w' = next_id w →
  db_messages w' = db_messages w ∨ db_messages w' = delete id (db_messages w) →
  ids_consistent w ∧ all_messages_well_formed w →
  ids_consistent w' ∧ all_messages_well_formed w'.
Proof.
  intros Hn Hdb [Hids Hwf].
  assert (Hsub : ∀ j m, db_messages w' !! j = Some m → db_messages w !! j = Some m).
  { intros j m. destruct Hdb as [->| ->]; [done |].
    rewrite lookup_delete_Some. tauto. }
  split.
  - intros j m Hj. rewrite Hn. apply Hids. by apply Hsub.
  - intros j m Hj. apply (Hwf j). by apply Hsub.
Qed.

(** X4. Two invariants of the board survive every public mutation,
    whether it returns or throws: each document sits under its own [_id]
    and below the id counter, and each stored message has content that is
    already trimmed, between 1 and 2000 characters long, and an author
    name. *)
Theorem mutations_keep_board_invariants ctx call w :
  ids_consistent w ∧ all_messages_well_formed w →
  ids_consistent (fst (run_mutation ctx call w))
  ∧ all_messages_well_formed (fst (run_mutation ctx call w)).
Proof.
  intros Hinv. rewrite run_mutation_world.
  destruct call as [content|id|id|email isAdmin].
  - destruct Hinv as [Hids Hwf].
    destruct (send_world ctx content w) as [[Hdb Hn]|[Hv [Hdb Hn]]].
    + split; intros j m; rewrite ?Hn, Hdb; [apply Hids | apply Hwf].
    + split; intros j m; rewrite ?Hn, Hdb, lookup_insert_Some.
      * intros [[<- <-]|[_ Hj]]; [cbn; split; [done | lia] |].
        destruct (Hids j m Hj). split; [done | lia].
      * intros [[<- <-]|[_ Hj]]; [| by apply (Hwf j)].
        unfold well_formed_message. cbn [Message.content Message.authorName].
        rewrite trim_idempotent.
        unfold valid_content in Hv. split; [done |]. split; [lia | by eexists].
  - destruct (remove_world ctx id w) as [Hn [_ Hdb]].
    by apply (delete_keeps_invariants w _ id).
  - destruct (deleteAny_world ctx id w) as [Hn [_ Hdb]].
    by apply (delete_keeps_invariants w _ id).
  - pose proof (setAdminByEmail_world ctx email isAdmin w) as Hs.
    unfold stored in Hs. injection Hs as Hdb Hn _.
    by apply (delete_keeps_invariants w _ 0%N); [| left |].
Qed.

Lemma board1_messages : db_messages board1 = <[0%N := hello_by_u2]> ∅.
Proof. by vm_compute. Qed.

Lemma board1_invariants : ids_consistent board1 ∧ all_messages_well_formed board1.
Proof.
  split; intros id m; rewrite board1_messages, lookup_insert_Some, lookup_empty;
    (intros [[<- <-]|[_ H]]; [| done]).
  - by vm_compute.
  - unfold well_formed_message.
    split; [by vm_compute |]. split; [by vm_compute | by eexists].
Qed.

Lemma mutations_keep_board_invariants_witness :
  (ids_consistent board1 ∧ all_messages_well_formed board1)
  ∧ ids_consistent (fst (run_mutation (ctx_of u1 3) (Send (lit "  hi ")) board1))
  ∧ all_messages_well_formed
      (fst (run_mutation (ctx_of u1 3) (Send (lit "  hi ")) board1)).
Proof.
  split; [exact board1_invariants |].
  exact (mutations_keep_board_invariants (ctx_of u1 3) (Send (lit "  hi ")) board1
           board1_invariants).
Defined.

(** ** [send] seen through the store and through [list] *)

(** X5. When the content is acceptable, the gate admits the caller's key
    and the id the store hands out is not in use, [send] adds exactly one
    message: it returns that id, every message that was stored is still
    stored unchanged, the store has one message more, and looking up the
    returned id gives a document with that id, the trimmed content, the
    caller's identifier as author and the caller's name, or "Anonymous",
    as author name. *)
Theorem admitted_send_adds_one_message ctx content w :
  valid_content content →
  admits sendMessage (sendKey ctx) ctx w →
  db_messages w !! next_id w = None →
  snd (messages.send ctx content w) = Return (next_id w)
  ∧ (∀ id m, db_messages w !! id = Some m →
       db_messages (fst (messages.send ctx content w)) !! id = Some m)
  ∧ size (db_messages (fst (messages.send ctx content w)))
    = S (size (db_messages w))
  ∧ ∃ doc,
      snd (MessageRepository.findById (next_id w) (fst (messages.send ctx content w)))
      = Return (Some doc)
      ∧ Message._id doc = next_id w
      ∧ Message.content doc = trim content
      ∧ Message.authorId doc = (AuthUser._id <$> principal ctx)
      ∧ Message.authorName doc
        = Some (js_nullish (principal ctx ≫= AuthUser.name) (lit "Anonymous")).
Proof.
  intros Hv Ha Hfresh. rewrite send_admitted by done. cbn [fst snd db_messages].
  split; [done |]. split; [| split].
  - intros id m Hm. rewrite lookup_insert_ne; [done |]. congruence.
  - by apply map_size_insert_None.
  - eexists. cbv [MessageRepository.findById db_get bind emit].
    cbn [snd db_messages]. rewrite lookup_insert_eq. by split.
Qed.

Lemma admitted_send_adds_one_message_witness :
  valid_content (lit " hi ")
  ∧ admits sendMessage (sendKey (ctx_of u1 4)) (ctx_of u1 4) board1
  ∧ db_messages board1 !! next_id board1 = None
  ∧ snd (messages.send (ctx_of u1 4) (lit " hi ") board1) = Return 1%N
  ∧ size (db_messages (fst (messages.send (ctx_of u1 4) (lit " hi ") board1)))
    = 2%nat
  ∧ ∃ doc,
      snd (MessageRepository.findById 1%N
             (fst (messages.send (ctx_of u1 4) (lit " hi ") board1)))
      = Return (Some doc)
      ∧ Message._id doc = 1%N
      ∧ Message.content doc = lit "hi"
      ∧ Message.authorId doc = Some (lit "u1")
      ∧ Message.authorName doc = Some (lit "Ann").
Proof.
  assert (H1 : valid_content (lit " hi "))
    by (vm_compute; split; [reflexivity | discriminate]).
  assert (H2 : admits sendMessage (sendKey (ctx_of u1 4)) (ctx_of u1 4) board1)
    by (vm_compute; discriminate).
  assert (H3 : db_messages board1 !! next_id board1 = None)
    by (vm_compute; reflexivity).
  destruct (admitted_send_adds_one_message (ctx_of u1 4) (lit " hi ") board1 H1 H2 H3)
    as [Ha [_ [Hb Hc]]].
  split; [exact H1 |]. split; [exact H2 |]. split; [exact H3 |].
  split; [exact Ha |]. split; [exact Hb | exact Hc].
Defined.

Lemma head_of_sorted_is_strict_maximum (l : list Message.t) d :
  d ∈ l →
  (∀ x, x ∈ l → newer_rel x d → x = d) →
  head (merge_sort newer_rel l) = Some d.
Proof.
  intros Hd Hmax.
  pose proof (StronglySorted_merge_sort newer_rel l) as Hs.
  pose proof (merge_sort_Permutation newer_rel l) as Hp.
  destruct (merge_sort newer_rel l) as [|h t].
  - rewrite <- Hp in Hd. by apply elem_of_nil in Hd.
  - simpl. f_equal. apply Hmax.
    + rewrite <- Hp. by left.
    + rewrite <- Hp in Hd. apply elem_of_cons in Hd as [->|Hd].
      * apply newer_rel_spec. lia.
      * apply StronglySorted_cons in Hs as [Hs _].
        rewrite Forall_forall in Hs. by apply Hs.
Qed.

(** X6. Post and read: after an admitted [send], [list] shows the new
    message first, as long as the board's ids are consistent and no
    stored message carries a creation time later than the one the store
    gives the new message. *)
Theorem send_then_list_shows_it_first ctx ctx' content w :
  ids_consistent w →
  (∀ id m, db_messages w !! id = Some m →
           Message._creationTime m <= insert_stamp ctx) →
  valid_content content →
  admits sendMessage (sendKey ctx) ctx w →
  ∃ docs,
    snd (messages.list ctx' (fst (messages.send ctx content w))) = Return docs
    ∧ head docs
      = Some (Message.mk (next_id w) (insert_stamp ctx) (trim content)
                (AuthUser._id <$> principal ctx)
                (Some (js_nullish (principal ctx ≫= AuthUser.name)
                         (lit "Anonymous")))
                None).
Proof.
  intros Hids Hct Hv Ha. rewrite send_admitted by done. cbn [fst].
  eexists. split; [reflexivity |]. cbn [db_messages].
  set (d := Message.mk _ _ _ _ _ _).
  set (l := snd <$> map_to_list (<[next_id w := d]> (db_messages w))).
  assert (Hhead : head (merge_sort newer_rel l) = Some d).
  { apply head_of_sorted_is_strict_maximum.
    - apply list_elem_of_fmap. exists (next_id w, d). split; [done |].
      apply elem_of_map_to_list. apply lookup_insert_eq.
    - intros x Hx Hnew. apply list_elem_of_fmap in Hx as [[j x'] [-> Hx]].
      apply elem_of_map_to_list, lookup_insert_Some in Hx as [[_ <-]|[Hne Hx]];
        [done |]. cbn [snd] in *.
      destruct (Hids j x' Hx) as [Hid Hlt]. specialize (Hct j x' Hx).
      apply newer_rel_spec in Hnew. subst d. cbn in Hnew. lia. }
  destruct (merge_sort newer_rel l) as [|h t]; [done |]. exact Hhead.
Qed.

Lemma send_then_list_shows_it_first_witness :
  ids_consistent board1
  ∧ (∀ id m, db_messages board1 !! id = Some m →
       Message._creationTime m <= insert_stamp (ctx_of u1 4))
  ∧ valid_content (lit " hi ")
  ∧ admits sendMessage (sendKey (ctx_of u1 4)) (ctx_of u1 4) board1
  ∧ ∃ docs,
      snd (messages.list anonymous_ctx
             (fst (messages.send (ctx_of u1 4) (lit " hi ") board1)))
      = Return docs
      ∧ head docs
        = Some (Message.mk 1 4 (lit "hi") (Some (lit "u1")) (Some (lit "Ann")) None).
Proof.
  assert (H1 : ids_consistent board1) by exact (proj1 board1_invariants).
  assert (H2 : ∀ id m, db_messages board1 !! id = Some m →
                 Message._creationTime m <= insert_stamp (ctx_of u1 4)).
  { intros id m. rewrite board1_messages, lookup_insert_Some, lookup_empty.
    intros [[_ <-]|[_ H]]; [by vm_compute | done]. }
  assert (H3 : valid_content (lit " hi "))
    by (vm_compute; split; [reflexivity | discriminate]).
  assert (H4 : admits sendMessage (sendKey (ctx_of u1 4)) (ctx_of u1 4) board1)
    by (vm_compute; discriminate).
  split; [exact H1 |]. split; [exact H2 |]. split; [exact H3 |].
  split; [exact H4 |].
  exact (send_then_list_shows_it_first (ctx_of u1 4) anonymous_ctx (lit " hi ")
           board1 H1 H2 H3 H4).
Defined.

(** ** Quota buckets under [send] *)

Lemma send_buckets ctx content w :
  buckets (fst (messages.send ctx content w)) = buckets w
  ∨ buckets (fst (messages.send ctx content w))
    = <[(sendMessage, sendKey ctx) :=
          {| value := available sendMessage (sendKey ctx) ctx w - 60000;
             ts := now ctx |}]> (buckets w).
Proof.
  destruct (content_cases content) as [H|[H|Hv]].
  - left. by rewrite send_empty.
  - left. by rewrite send_too_long.
  - destruct (admits_dec sendMessage (sendKey ctx) ctx w) as [Ha|Ha].
    + right. by rewrite send_admitted.
    + left. by rewrite send_rejected.
Qed.

(** X7. A [send] touches no bucket but its own: the bucket of any other
    operation name or any other partition key is left as it was, so what
    it holds for any later request is unchanged. One user running out of
    quota never costs another user a token. *)
Theorem send_leaves_other_buckets ctx content w name key :
  (name, key) ≠ (sendMessage, sendKey ctx) →
  buckets (fst (messages.send ctx content w)) !! (name, key)
  = buckets w !! (name, key)
  ∧ (∀ ctx2,
       available name key ctx2 (fst (messages.send ctx content w))
       = available name key ctx2 w).
Proof.
  intros Hne.
  assert (H : buckets (fst (messages.send ctx content w)) !! (name, key)
              = buckets w !! (name, key)).
  { destruct (send_buckets ctx content w) as [->| ->]; [done |].
    by rewrite lookup_insert_ne. }
  split; [exact H |]. intros ctx2. unfold available. by rewrite H.
Qed.

Lemma send_leaves_other_buckets_witness :
  (sendMessage, lit "u2") ≠ (sendMessage, sendKey (ctx_of u1 1))
  ∧ buckets (fst (messages.send (ctx_of u1 1) (lit "hi") board1))
      !! (sendMessage, lit "u2")
    = buckets board1 !! (sendMessage, lit "u2")
  ∧ available sendMessage (lit "u2") (ctx_of u2 2)
      (fst (messages.send (ctx_of u1 1) (lit "hi") board1))
    = available sendMessage (lit "u2") (ctx_of u2 2) board1.
Proof.
  assert (H : (sendMessage, lit "u2") ≠ (sendMessage, sendKey (ctx_of u1 1)))
    by (vm_compute; discriminate).
  destruct (send_leaves_other_buckets (ctx_of u1 1) (lit "hi") board1
              sendMessage (lit "u2") H) as [Ha Hb].
  split; [exact H |]. split; [exact Ha | exact (Hb (ctx_of u2 2))].
Defined.

(** X8. All callers without a principal share one bucket. When the
    bucket of the key "anonymous" is full and 15 requests without a
    principal arrive at once, whoever sends them, the gate admits all 15,
    and for the next request without a principal at that moment the
    verdict of the gate is a rejection, with 6000 ms to wait. [send]
    does not look at the verdict: that message, too, is given an id. *)
Theorem anonymous_callers_share_quota reqs ctx content w :
  Forall (fun r => principal r.1 = None ∧ now r.1 = now ctx
                   ∧ valid_content r.2) reqs →
  length reqs = 15%nat →
  principal ctx = None →
  valid_content content →
  full sendMessage (lit "anonymous") ctx w →
  (∃ ids evs,
     snd (send_all reqs w) = Return <$> ids
     ∧ length ids = 15%nat
     ∧ trace (fst (send_all reqs w)) = trace w ++ evs
     ∧ gate_verdicts evs = replicate 15 Allowed)
  ∧ gate_verdicts (send_events ctx content (fst (send_all reqs w)))
    = [Rejected 6000]
  ∧ snd (messages.send ctx content (fst (send_all reqs w)))
    = Return (next_id (fst (send_all reqs w))).
Proof.
  intros Hall Hlen Hp Hv Hfull.
  assert (Hk : sendKey ctx = lit "anonymous") by (unfold sendKey; by rewrite Hp).
  assert (Hall' : Forall (fun r => sendKey r.1 = lit "anonymous"
                                   ∧ now r.1 = now ctx ∧ valid_content r.2) reqs).
  { eapply Forall_impl; [exact Hall |]. intros [c s] [Hc H]. split; [| exact H].
    cbn [fst] in *. unfold sendKey. by rewrite Hc. }
  destruct (send_all_from (lit "anonymous") (now ctx) reqs 15 w Hall' Hfull)
    as [ids [evs [Hids [Hl [Htr [Hg Hd]]]]]].
  rewrite Hlen in Hl, Hg, Hd. split.
  - exists ids, evs. split; [exact Hids |]. split; [exact Hl |].
    split; [exact Htr |]. rewrite Hg. cbn [Nat.min Nat.sub replicate].
    by rewrite app_nil_r.
  - change (Z.of_nat (15 - 15) * 60000) with 0 in Hd.
    set (w15 := fst (send_all reqs w)) in *.
    assert (Hav : available sendMessage (sendKey ctx) ctx w15 = 0)
      by (rewrite Hk; exact Hd).
    unfold send_events.
    rewrite send_rejected; [| done | unfold admits; rewrite Hav; cbn; lia].
    cbn [fst snd trace]. rewrite drop_app_length, Hav. by split.
Qed.

Lemma anonymous_callers_share_quota_witness :
  Forall (fun r => principal r.1 = None
                   ∧ now r.1 = now (stamped broken_session_ctx 15)
                   ∧ valid_content r.2)
    (burst 15 anonymous_ctx (lit "hi"))
  ∧ length (burst 15 anonymous_ctx (lit "hi")) = 15%nat
  ∧ principal (stamped broken_session_ctx 15) = None
  ∧ valid_content (lit "hello")
  ∧ full sendMessage (lit "anonymous") (stamped broken_session_ctx 15) world0
  ∧ gate_verdicts
      (send_events (stamped broken_session_ctx 15) (lit "hello")
         (fst (send_all (burst 15 anonymous_ctx (lit "hi")) world0)))
    = [Rejected 6000]
  ∧ snd (messages.send (stamped broken_session_ctx 15) (lit "hello")
           (fst (send_all (burst 15 anonymous_ctx (lit "hi")) world0)))
    = Return (next_id (fst (send_all (burst 15 anonymous_ctx (lit "hi")) world0))).
Proof.
  assert (H1 : Forall (fun r => principal r.1 = None
                                ∧ now r.1 = now (stamped broken_session_ctx 15)
                                ∧ valid_content r.2)
                 (burst 15 anonymous_ctx (lit "hi"))).
  { repeat constructor; vm_compute; discriminate. }
  assert (H2 : length (burst 15 anonymous_ctx (lit "hi")) = 15%nat) by reflexivity.
  assert (H3 : principal (stamped broken_session_ctx 15) = None) by reflexivity.
  assert (H4 : valid_content (lit "hello"))
    by (vm_compute; split; [reflexivity | discriminate]).
  assert (H5 : full sendMessage (lit "anonymous") (stamped broken_session_ctx 15)
                 world0)
    by (vm_compute; reflexivity).
  split; [exact H1 |]. split; [exact H2 |]. split; [exact H3 |].
  split; [exact H4 |]. split; [exact H5 |].
  exact (proj2 (anonymous_callers_share_quota (burst 15 anonymous_ctx (lit "hi"))
                  (stamped broken_session_ctx 15) (lit "hello") world0
                  H1 H2 H3 H4 H5)).
Defined.

(** ** [users.isAdmin] and [users.current] *)

(** X9. [users.isAdmin] answers true exactly for a resolved user whose
    non-empty email is on the [ADMIN_EMAILS] list or whose role is
    "admin", and false when nobody is signed in; unlike [send] it does
    not catch an error of the session lookup, which [isAdmin] and
    [current] pass on to the caller. Neither query changes what is
    stored. *)
Theorem isAdmin_answers ctx w :
  stored (fst (users.isAdmin ctx w)) = stored w
  ∧ stored (fst (users.current ctx w)) = stored w
  ∧ match auth ctx with
    | Resolved u =>
        ∃ b, snd (users.isAdmin ctx w) = Return b
             ∧ (b = true
                ↔ (AuthUser.email u ≠ [] ∧ AuthUser.email u ∈ ADMIN_EMAILS ctx)
                  ∨ AuthUser.role u = Some (lit "admin"))
    | NoUser =>
        snd (users.isAdmin ctx w) = Return false
        ∧ snd (users.current ctx w) = Return None
    | AuthThrows e =>
        snd (users.isAdmin ctx w) = Throw e
        ∧ snd (users.current ctx w) = Throw e
    end.
Proof.
  cbv [users.isAdmin users.current getAuthUser bind emit ret throw].
  destruct (auth ctx) as [u| |e]; cbn [fst snd]; (split; [done |]); (split; [done |]);
    [| done | done].
  eexists. split; [reflexivity |]. unfold is_admin_user.
  rewrite orb_true_iff, !bool_decide_eq_true.
  destruct (AuthUser.email u) as [|c r] eqn:E.
  - split; [intros [?|?]; [done | by right] | intros [[? _]|?]; [done | by right]].
  - rewrite bool_decide_eq_true.
    split; (intros [?|?]; [left | by right]); [by split | tauto].
Qed.

(** ** The handler wrappers *)

Lemma requireAuth_run ctx w :
  requireAuth ctx w
  = ({| db_messages := db_messages w; next_id := next_id w; buckets := buckets w;
        trace := trace w ++ [EvGetAuthUser] |},
     match auth ctx with
     | Resolved u => Return u
     | NoUser => Throw (Error (lit "Authentication required"))
     | AuthThrows e => Throw e
     end).
Proof.
  cbv [requireAuth getAuthUser bind emit ret throw]. by destruct (auth ctx).
Qed.

(** X10. [withRateLimit] calls the gate between the session lookup and
    the handler. For a signed-in user the gate is asked for the wrapper's
    operation under the custom key, or under the user's [_id] when no key
    function is given, and the result of the wrapper is that of the
    handler, run on the world the lookup and the gate call leave behind.
    In that world a token is spent if the bucket held one; if it held
    none, the verdict of the gate is a rejection and the buckets are as
    before. The wrapper does not look at the verdict. *)
Theorem withRateLimit_gates_handler {Args Output : Type}
    (handler : Ctx -> Args -> AuthUser.t -> M Output) operation getKey
    ctx args w u :
  auth ctx = Resolved u →
  middleware.withRateLimit handler operation getKey ctx args w
  = handler ctx args u
      (after_lookup_and_gate ctx operation (wrapper_key getKey ctx args u) w)
  ∧ (admits operation (wrapper_key getKey ctx args u) ctx w →
     after_lookup_and_gate ctx operation (wrapper_key getKey ctx args u) w
     = {| db_messages := db_messages w; next_id := next_id w;
          buckets :=
            <[(operation, wrapper_key getKey ctx args u) :=
                {| value := available operation (wrapper_key getKey ctx args u) ctx w
                            - period (RATE_LIMIT_DEFS operation);
                   ts := now ctx |}]> (buckets w);
          trace := trace w
                   ++ [EvGetAuthUser;
                       EvRateLimit operation (wrapper_key getKey ctx args u)
                         Allowed] |})
  ∧ (¬ admits operation (wrapper_key getKey ctx args u) ctx w →
     after_lookup_and_gate ctx operation (wrapper_key getKey ctx args u) w
     = {| db_messages := db_messages w; next_id := next_id w;
          buckets := buckets w;
          trace := trace w
                   ++ [EvGetAuthUser;
                       EvRateLimit operation (wrapper_key getKey ctx args u)
                         (Rejected
                            (RateLimiter.retryAfter (RATE_LIMIT_DEFS operation)
                               (available operation
                                  (wrapper_key getKey ctx args u) ctx w)))] |}).
Proof.
  intros Hu. split; [| split].
  - unfold middleware.withRateLimit.
    unfold bind at 1. rewrite requireAuth_run, Hu. cbv beta iota.
    fold (wrapper_key getKey ctx args u). unfold bind.
    rewrite limit_run. cbn [db_messages next_id buckets trace].
    unfold after_lookup_and_gate, verdict_of, buckets_after, available.
    cbn [db_messages next_id buckets trace].
    by rewrite <- app_assoc.
  - intros Ha. unfold after_lookup_and_gate.
    by destruct (verdict_admitted _ _ _ _ Ha) as [-> ->].
  - intros Ha. unfold after_lookup_and_gate.
    by destruct (verdict_rejected _ _ _ _ Ha) as [-> ->].
Qed.

Lemma withRateLimit_gates_handler_witness :
  auth (ctx_of u1 0) = Resolved u1
  ∧ middleware.withRateLimit post_as_user apiCall None (ctx_of u1 0) (lit "hi") world0
    = post_as_user (ctx_of u1 0) (lit "hi") u1
        (after_lookup_and_gate (ctx_of u1 0) apiCall
           (wrapper_key None (ctx_of u1 0) (lit "hi") u1) world0)
  ∧ trace (after_lookup_and_gate (ctx_of u1 0) apiCall
             (wrapper_key None (ctx_of u1 0) (lit "hi") u1) world0)
    = [EvGetAuthUser; EvRateLimit apiCall (lit "u1") Allowed].
Proof.
  assert (H1 : auth (ctx_of u1 0) = Resolved u1) by reflexivity.
  split; [exact H1 |]. split; [| reflexivity].
  exact (proj1 (withRateLimit_gates_handler post_as_user apiCall None
                  (ctx_of u1 0) (lit "hi") world0 u1 H1)).
Defined.

(** X11. None of the wrappers runs its handler without a principal.
    When the session lookup finds no user or throws, [withRateLimit],
    [MutationFactory.authenticated] and [MutationFactory.adminOnly] all
    end in an error whatever the handler is; the session lookup is the
    only call made, so no quota is spent and nothing stored changes. *)
Theorem wrappers_need_a_principal {Args Output : Type}
    (handler : Ctx -> Args -> AuthUser.t -> M Output) operation getKey
    ctx args w :
  auth ctx = NoUser ∨ (∃ e, auth ctx = AuthThrows e) →
  ∃ e,
    middleware.withRateLimit handler operation getKey ctx args w
    = ({| db_messages := db_messages w; next_id := next_id w; buckets := buckets w;
          trace := trace w ++ [EvGetAuthUser] |}, Throw e)
    ∧ MutationFactory.authenticated handler ctx args w
      = ({| db_messages := db_messages w; next_id := next_id w; buckets := buckets w;
            trace := trace w ++ [EvGetAuthUser] |}, Throw e)
    ∧ MutationFactory.adminOnly handler ctx args w
      = ({| db_messages := db_messages w; next_id := next_id w; buckets := buckets w;
            trace := trace w ++ [EvGetAuthUser] |}, Throw e).
Proof.
  intros Hu.
  unfold middleware.withRateLimit, MutationFactory.authenticated,
    MutationFactory.adminOnly, requireAdmin.
  unfold bind. rewrite requireAuth_run.
  destruct Hu as [->|[e ->]]; eexists; done.
Qed.

Lemma wrappers_need_a_principal_witness :
  (auth anonymous_ctx = NoUser ∨ (∃ e, auth anonymous_ctx = AuthThrows e))
  ∧ ∃ e,
      middleware.withRateLimit post_as_user sendMessage None anonymous_ctx
        (lit "hi") world0
      = ({| db_messages := db_messages world0; next_id := next_id world0;
            buckets := buckets world0;
            trace := trace world0 ++ [EvGetAuthUser] |}, Throw e).
Proof.
  assert (H : auth anonymous_ctx = NoUser ∨ (∃ e, auth anonymous_ctx = AuthThrows e))
    by (left; reflexivity).
  split; [exact H |].
  destruct (wrappers_need_a_principal post_as_user sendMessage None anonymous_ctx
              (lit "hi") world0 H) as [e [He _]].
  exists e. exact He.
Defined.

(** X12. A handler behind [withStrictRateLimit] and [messages.send] draw
    on the same bucket of a signed-in user whose [_id] is not empty:
    after that user's 15 sends in one instant, starting from a full
    bucket, the gate's verdict for a call of the wrapped handler at that
    instant is a rejection with 6000 ms to wait, and no bucket changes.
    The wrapper does not look at the verdict: the result is that of the
    handler, run after the gate call. *)
Theorem strict_wrapper_shares_quota_with_send {Args Output : Type}
    (handler : Ctx -> Args -> AuthUser.t -> M Output) ctx args reqs w u :
  auth ctx = Resolved u →
  AuthUser._id u ≠ [] →
  Forall (fun r => auth r.1 = Resolved u ∧ now r.1 = now ctx
                   ∧ valid_content r.2) reqs →
  length reqs = 15%nat →
  full sendMessage (AuthUser._id u) ctx w →
  (∃ ids evs,
     snd (send_all reqs w) = Return <$> ids
     ∧ length ids = 15%nat
     ∧ trace (fst (send_all reqs w)) = trace w ++ evs
     ∧ gate_verdicts evs = replicate 15 Allowed)
  ∧ middleware.withStrictRateLimit handler ctx args (fst (send_all reqs w))
    = handler ctx args u
        {| db_messages := db_messages (fst (send_all reqs w));
           next_id := next_id (fst (send_all reqs w));
           buckets := buckets (fst (send_all reqs w));
           trace := trace (fst (send_all reqs w))
                    ++ [EvGetAuthUser;
                        EvRateLimit sendMessage (AuthUser._id u) (Rejected 6000)] |}.
Proof.
  intros Hu Hid Hall Hlen Hfull.
  assert (Hall' : Forall (fun r => sendKey r.1 = AuthUser._id u
                                   ∧ now r.1 = now ctx ∧ valid_content r.2) reqs).
  { eapply Forall_impl; [exact Hall |]. intros [c s] [Hc H]. split; [| exact H].
    cbn [fst] in *. rewrite sendKey_partition_key, Hc. simpl.
    by destruct (AuthUser._id u). }
  destruct (send_all_from (AuthUser._id u) (now ctx) reqs 15 w Hall' Hfull)
    as [ids [evs [Hids [Hl [Htr [Hg Hd]]]]]].
  rewrite Hlen in Hl, Hg, Hd. split.
  - exists ids, evs. split; [exact Hids |]. split; [exact Hl |].
    split; [exact Htr |]. rewrite Hg. cbn [Nat.min Nat.sub replicate].
    by rewrite app_nil_r.
  - change (Z.of_nat (15 - 15) * 60000) with 0 in Hd.
    set (w15 := fst (send_all reqs w)) in *.
    unfold middleware.withStrictRateLimit, middleware.withRateLimit.
    unfold bind at 1. rewrite requireAuth_run, Hu. cbv beta iota. unfold bind.
    rewrite limit_rejected.
    + cbn [db_messages next_id buckets trace]. rewrite <- app_assoc.
      change (available _ _ _ _) with
        (RateLimiter.tokens (RATE_LIMIT_DEFS sendMessage)
           (buckets w15 !! (sendMessage, AuthUser._id u)) (now ctx)).
      by rewrite Hd.
    + unfold admits.
      change (available _ _ _ _) with
        (RateLimiter.tokens (RATE_LIMIT_DEFS sendMessage)
           (buckets w15 !! (sendMessage, AuthUser._id u)) (now ctx)).
      rewrite Hd. cbn. lia.
Qed.

Lemma strict_wrapper_shares_quota_with_send_witness :
  auth (stamped (ctx_of u1 0) 15) = Resolved u1
  ∧ AuthUser._id u1 ≠ []
  ∧ Forall (fun r => auth r.1 = Resolved u1
                     ∧ now r.1 = now (stamped (ctx_of u1 0) 15)
                     ∧ valid_content r.2)
      (burst 15 (ctx_of u1 0) (lit "hi"))
  ∧ length (burst 15 (ctx_of u1 0) (lit "hi")) = 15%nat
  ∧ full sendMessage (AuthUser._id u1) (stamped (ctx_of u1 0) 15) world0
  ∧ middleware.withStrictRateLimit post_as_user (stamped (ctx_of u1 0) 15)
      (lit "more") drained_board
    = post_as_user (stamped (ctx_of u1 0) 15) (lit "more") u1
        {| db_messages := db_messages drained_board;
           next_id := next_id drained_board;
           buckets := buckets drained_board;
           trace := trace drained_board
                    ++ [EvGetAuthUser;
                        EvRateLimit sendMessage (AuthUser._id u1) (Rejected 6000)] |}.
Proof.
  assert (H1 : auth (stamped (ctx_of u1 0) 15) = Resolved u1) by reflexivity.
  assert (H2 : AuthUser._id u1 ≠ []) by (vm_compute; discriminate).
  assert (H3 : Forall (fun r => auth r.1 = Resolved u1
                                ∧ now r.1 = now (stamped (ctx_of u1 0) 15)
                                ∧ valid_content r.2)
                 (burst 15 (ctx_of u1 0) (lit "hi"))).
  { repeat constructor; vm_compute; discriminate. }
  assert (H4 : length (burst 15 (ctx_of u1 0) (lit "hi")) = 15%nat) by reflexivity.
  assert (H5 : full sendMessage (AuthUser._id u1) (stamped (ctx_of u1 0) 15) world0)
    by (vm_compute; reflexivity).
  split; [exact H1 |]. split; [exact H2 |]. split; [exact H3 |].
  split; [exact H4 |]. split; [exact H5 |].
  exact (proj2 (strict_wrapper_shares_quota_with_send post_as_user
                  (stamped (ctx_of u1 0) 15) (lit "more")
                  (burst 15 (ctx_of u1 0) (lit "hi")) world0 u1
                  H1 H2 H3 H4 H5)).
Defined.

(** ** [exampleCreateMessage] *)



(** ** Queries of [QueryFactory] and [MessageRepository] *)

#[local] Instance order_rel_total o : Total (order_rel o).
Proof. destruct o; intros a b; [apply (total newer_rel) | apply (total newer_rel)]. Qed.

#[local] Instance order_rel_trans o : Transitive (order_rel o).
Proof.
  destruct o; intros a b c; unfold order_rel, flip; [| by apply transitivity].
  intros H1 H2. by apply (transitivity H2).
Qed.

Lemma collect_elem_of (p : Message.t → Prop) `{!∀ m, Decision (p m)} o (w : World) d :
  d ∈ merge_sort (order_rel o) (filter p (snd <$> map_to_list (db_messages w)))
  ↔ (∃ id, db_messages w !! id = Some d) ∧ p d.
Proof.
  rewrite (merge_sort_Permutation (order_rel o)), list_elem_of_filter,
    stored_documents. tauto.
Qed.

Lemma asc_oldest_first (l : list Message.t) :
  StronglySorted (fun a b => Message._creationTime a <= Message._creationTime b)
    (merge_sort (order_rel asc) l).
Proof.
  pose proof (StronglySorted_merge_sort (order_rel asc) l) as H.
  induction H as [|a t Ht IH Hall]; constructor; [done |].
  eapply Forall_impl; [exact Hall |]. intros b Hb.
  by apply newer_rel_creationTime in Hb.
Qed.

(** X14. [QueryFactory.dateRange] returns exactly the stored messages
    created from [startTime] to [endTime], both ends included, oldest
    first, and writes nothing. An interval whose end is before its start
    gives no message. *)
Theorem dateRange_is_the_closed_interval startTime endTime w :
  ∃ docs,
    QueryFactory.dateRange startTime endTime w
    = ({| db_messages := db_messages w; next_id := next_id w;
          buckets := buckets w; trace := trace w ++ [EvDbQuery] |}, Return docs)
    ∧ (∀ d, d ∈ docs
            ↔ (∃ id, db_messages w !! id = Some d)
              ∧ startTime <= Message._creationTime d <= endTime)
    ∧ StronglySorted
        (fun a b => Message._creationTime a <= Message._creationTime b) docs
    ∧ (endTime < startTime → docs = []).
Proof.
  eexists. split; [reflexivity |]. cbn [take_upto db_messages].
  split; [intros d; apply collect_elem_of |].
  split; [apply asc_oldest_first |].
  intros Hlt.
  match goal with |- ?l = [] => destruct l as [|d t] eqn:E end; [done |].
  assert (Hd : d ∈ d :: t) by left. rewrite <- E in Hd.
  apply collect_elem_of in Hd as [_ Hd]. lia.
Qed.

(** X15. [MessageRepository.findInDateRange] joins its two bounds with
    "or". Whenever [startTime] is not after [endTime] every creation time
    passes one of the two tests, and the method returns what [findAll]
    returns: every stored message, also those outside the interval. *)
Theorem findInDateRange_returns_everything startTime endTime w :
  startTime <= endTime →
  MessageRepository.findInDateRange startTime endTime w = MessageRepository.findAll w
  ∧ ∃ docs,
      snd (MessageRepository.findInDateRange startTime endTime w) = Return docs
      ∧ ∀ id d, db_messages w !! id = Some d → d ∈ docs.
Proof.
  intros Hle.
  assert (Heq : MessageRepository.findInDateRange startTime endTime w
                = MessageRepository.findAll w).
  { cbv [MessageRepository.findInDateRange MessageRepository.findAll
         db_query_filter bind emit].
    cbn [db_messages]. do 2 f_equal. unfold take_upto. f_equal.
    apply list_filter_iff. intros m. split; [done | lia]. }
  split; [exact Heq |]. rewrite Heq.
  eexists. split; [reflexivity |]. intros id d Hd.
  apply collect_elem_of. split; [by exists id | done].
Qed.

Lemma findInDateRange_returns_everything_witness :
  5000 <= 6000
  ∧ MessageRepository.findInDateRange 5000 6000 crowded_board
    = MessageRepository.findAll crowded_board
  ∧ match snd (MessageRepository.findInDateRange 5000 6000 crowded_board) with
    | Return docs => length docs
    | Throw _ => 0%nat
    end = 60%nat.
Proof.
  assert (H : 5000 <= 6000) by lia.
  split; [exact H |].
  split; [exact (proj1 (findInDateRange_returns_everything 5000 6000 crowded_board H)) |].
  by vm_compute.
Defined.

(** X16. [MessageRepository.findByAuthorId] returns at most [limit]
    messages, 50 when no limit is given; each is a stored message whose
    [authorId] is the one asked for, so anonymous posts and posts of
    others never appear; they come newest first, and no message of that
    author that is left out is newer than one that is returned. *)
Theorem findByAuthorId_newest_of_author authorId limit w :
  ∃ docs,
    MessageRepository.findByAuthorId authorId limit w
    = ({| db_messages := db_messages w; next_id := next_id w;
          buckets := buckets w; trace := trace w ++ [EvDbQuery] |}, Return docs)
    ∧ (length docs <= default 50 limit)%nat
    ∧ (∀ d, d ∈ docs →
         (∃ id, db_messages w !! id = Some d)
         ∧ Message.authorId d = Some authorId)
    ∧ StronglySorted newer_rel docs
    ∧ (∀ id d d',
         db_messages w !! id = Some d → Message.authorId d = Some authorId →
         d ∉ docs → d' ∈ docs →
         Message._creationTime d <= Message._creationTime d').
Proof.
  eexists. split; [reflexivity |]. cbn [take_upto db_messages order_rel].
  set (l := filter _ _).
  split; [rewrite length_take; lia |].
  split; [| split; [apply order_desc_sorted |]].
  - intros d Hd. apply (subseteq_take (default 50%nat limit)) in Hd.
    rewrite (merge_sort_Permutation newer_rel) in Hd.
    apply list_elem_of_filter in Hd as [Hp Hd].
    split; [by apply stored_documents | done].
  - intros id d d' Hd Ha Hout Hin. apply newer_rel_creationTime.
    apply (order_desc_newest l (default 50%nat limit)); [| done | done].
    apply list_elem_of_filter. split; [done |].
    apply stored_documents. by exists id.
Qed.

(** X17. [MessageRepository.getRecent] with no limit is the public
    [list] query, and asking for fewer messages gives a prefix of what
    asking for more gives: the first [n] of [getRecent(m)] are
    [getRecent(n)] whenever [n] is at most [m]. *)
Theorem getRecent_prefix_of_longer ctx n m w :
  (n <= m)%nat →
  MessageRepository.getRecent None w = messages.list ctx w
  ∧ ∃ shorter longer,
      snd (MessageRepository.getRecent (Some n) w) = Return shorter
      ∧ snd (MessageRepository.getRecent (Some m) w) = Return longer
      ∧ shorter = take n longer.
Proof.
  intros Hnm. split; [reflexivity |].
  do 2 eexists. split; [reflexivity |]. split; [reflexivity |].
  cbn [default from_option id]. rewrite take_take. f_equal. lia.
Qed.

Lemma getRecent_prefix_of_longer_witness :
  (3 <= 10)%nat
  ∧ ∃ shorter longer,
      snd (MessageRepository.getRecent (Some 3%nat) crowded_board) = Return shorter
      ∧ snd (MessageRepository.getRecent (Some 10%nat) crowded_board) = Return longer
      ∧ shorter = take 3 longer.
Proof.
  assert (H : (3 <= 10)%nat) by lia.
  split; [exact H |].
  exact (proj2 (getRecent_prefix_of_longer anonymous_ctx 3 10 crowded_board H)).
Defined.

Lemma filter_all (l : list Message.t) : filter (fun _ => True) l = l.
Proof.
  induction l as [|a l IH]; [done |]. by rewrite filter_cons_True, IH.
Qed.

(** X18. [count] is the number of stored messages, and [findAll] lists
    every stored message, no more and no fewer, oldest first; neither
    writes anything. *)
Theorem count_and_findAll_cover_the_store w :
  MessageRepository.count w
  = ({| db_messages := db_messages w; next_id := next_id w;
        buckets := buckets w; trace := trace w ++ [EvDbQuery] |},
     Return (Z.of_nat (size (db_messages w))))
  ∧ ∃ docs,
      MessageRepository.findAll w
      = ({| db_messages := db_messages w; next_id := next_id w;
            buckets := buckets w; trace := trace w ++ [EvDbQuery] |}, Return docs)
      ∧ docs ≡ₚ snd <$> map_to_list (db_messages w)
      ∧ length docs = size (db_messages w)
      ∧ (∀ d, d ∈ docs ↔ ∃ id, db_messages w !! id = Some d)
      ∧ StronglySorted
          (fun a b => Message._creationTime a <= Message._creationTime b) docs.
Proof.
  assert (Hp : merge_sort (order_rel asc)
                 (filter (fun _ => True) (snd <$> map_to_list (db_messages w)))
               ≡ₚ snd <$> map_to_list (db_messages w))
    by (by rewrite (merge_sort_Permutation (order_rel asc)), filter_all).
  split.
  - cbv [MessageRepository.count db_query_filter bind emit ret].
    cbn [take_upto db_messages]. do 3 f_equal.
    by rewrite Hp, length_fmap, length_map_to_list.
  - eexists. split; [reflexivity |]. cbn [take_upto db_messages].
    split; [exact Hp |].
    split; [by rewrite Hp, length_fmap, length_map_to_list |].
    split; [| apply asc_oldest_first].
    intros d. rewrite Hp. apply stored_documents.
Qed.

(** ** [messages.deleteAny] *)

(** X19. [deleteAny] does not look at the author. For a user who passes
    the admin test of [users.isAdmin], any stored message is deleted,
    also an anonymous one that [remove] refuses to everybody, and the
    other messages stay; for a signed-in user who fails the test it
    throws and the message stays. *)
Theorem deleteAny_ignores_author ctx id w u m :
  auth ctx = Resolved u →
  db_messages w !! id = Some m →
  (is_admin_user ctx u = true →
     snd (messages.deleteAny ctx id w) = Return tt
     ∧ db_messages (fst (messages.deleteAny ctx id w)) = delete id (db_messages w))
  ∧ (is_admin_user ctx u = false →
     (∃ e, snd (messages.deleteAny ctx id w) = Throw e)
     ∧ db_messages (fst (messages.deleteAny ctx id w)) !! id = Some m).
Proof.
  intros Hu Hm.
  split; intros Ha;
    cbv [messages.deleteAny requireAdmin requireAuth getAuthUser bind emit db_get
         db_delete throw ret];
    rewrite Hu, Ha; cbn [db_messages next_id buckets trace fst snd].
  - by rewrite Hm.
  - split; [by eexists | done].
Qed.

Lemma deleteAny_ignores_author_witness :
  auth {| auth := Resolved u1; now := 9; insert_stamp := 9; ADMIN_EMAILS := [lit "ann@example.com"] |}
  = Resolved u1
  ∧ db_messages board1 !! 0%N = Some hello_by_u2
  ∧ is_admin_user
      {| auth := Resolved u1; now := 9; insert_stamp := 9; ADMIN_EMAILS := [lit "ann@example.com"] |} u1
    = true
  ∧ snd (messages.deleteAny
           {| auth := Resolved u1; now := 9; insert_stamp := 9; ADMIN_EMAILS := [lit "ann@example.com"] |}
           0%N board1)
    = Return tt
  ∧ db_messages
      (fst (messages.deleteAny
              {| auth := Resolved u1; now := 9; insert_stamp := 9;
                 ADMIN_EMAILS := [lit "ann@example.com"] |} 0%N board1))
    = delete 0%N (db_messages board1).
Proof.
  assert (H1 : auth {| auth := Resolved u1; now := 9; insert_stamp := 9;
                       ADMIN_EMAILS := [lit "ann@example.com"] |} = Resolved u1)
    by reflexivity.
  assert (H2 : db_messages board1 !! 0%N = Some hello_by_u2)
    by (vm_compute; reflexivity).
  assert (H3 : is_admin_user
                 {| auth := Resolved u1; now := 9; insert_stamp := 9;
                    ADMIN_EMAILS := [lit "ann@example.com"] |} u1 = true)
    by (vm_compute; reflexivity).
  split; [exact H1 |]. split; [exact H2 |]. split; [exact H3 |].
  exact (proj1 (deleteAny_ignores_author _ 0%N board1 u1 hello_by_u2 H1 H2) H3).
Defined.

(** ** Route guards *)

(** X20. [RequireRole] knows two role names. Asked for "admin" alone it
    renders what [RequireAdmin] renders. Once both hooks have loaded, a
    role list that contains "user" lets every signed-in user through,
    as [RequireAuth] does. A role list with neither "admin" nor "user"
    never shows the children of a loaded page: it redirects. *)
Theorem RequireRole_knows_admin_and_user h role redirectTo fallback children :
  RouteGuards.RequireRole h (inl (lit "admin")) redirectTo fallback children
  = RouteGuards.RequireAdmin h redirectTo fallback children
  ∧ (RouteGuards.isPending h = false → RouteGuards.isAdminLoading h = false →
     (match role with inl r => r = lit "user" | inr rs => lit "user" ∈ rs end →
        RouteGuards.RequireRole h role redirectTo fallback children
        = RouteGuards.RequireAuth h redirectTo fallback children)
     ∧ (match role with
        | inl r => r ≠ lit "admin" ∧ r ≠ lit "user"
        | inr rs => (lit "admin" ∉ rs) ∧ (lit "user" ∉ rs)
        end →
        RouteGuards.RequireRole h role redirectTo fallback children
        = RouteGuards.Navigate (RouteGuards.redirect_or_root redirectTo))).
Proof.
  split.
  - unfold RouteGuards.RequireRole, RouteGuards.RequireAdmin.
    destruct (_ || _); [done |]. destruct (bool_decide (is_Some _)); [| done].
    cbn [negb]. rewrite bool_decide_eq_true_2 by (by left).
    rewrite (bool_decide_eq_false_2 (lit "user" ∈ _)).
    + cbn [andb]. by rewrite orb_false_r.
    + intros H. apply list_elem_of_singleton in H. discriminate H.
  - intros Hp Hl. unfold RouteGuards.RequireRole, RouteGuards.RequireAuth.
    rewrite Hp, Hl. cbn [orb].
    destruct (bool_decide (is_Some _)); [| done]. cbn [negb]. split.
    + intros Hin.
      rewrite (bool_decide_eq_true_2 (lit "user" ∈ _)).
      * by rewrite orb_true_r.
      * destruct role as [r|rs]; [subst r; by left | exact Hin].
    + intros Hout.
      assert (Hno : ∀ x, (x = lit "admin" ∨ x = lit "user") →
                         x ∉ match role with inl r => [r] | inr rs => rs end).
      { intros x Hx Hel. destruct role as [r|rs].
        - apply list_elem_of_singleton in Hel. subst x.
          destruct Hout, Hx; congruence.
        - destruct Hout, Hx; subst x; contradiction. }
      rewrite !bool_decide_eq_false_2 by (apply Hno; auto). done.
Qed.

(** X21. [RequireSubscription] never shows its children. While the
    session is loading it renders the fallback, the default loading
    screen when none is given; after that it redirects, whoever is
    signed in. *)
Theorem RequireSubscription_never_renders_children h redirectTo fallback children :
  RouteGuards.RequireSubscription h redirectTo fallback children
  = (if RouteGuards.isPending h
     then RouteGuards.fallback_or_loading fallback
     else RouteGuards.Navigate (RouteGuards.redirect_or_root redirectTo))
  ∧ ∀ other,
      RouteGuards.RequireSubscription h redirectTo fallback other
      = RouteGuards.RequireSubscription h redirectTo fallback children.
Proof.
  unfold RouteGuards.RequireSubscription.
  split; [| intros other];
    destruct (RouteGuards.isPending h); [done | | done |];
    by destruct (bool_decide (is_Some _)).
Qed.

(** X22. Once the session has loaded, [RequireAuth] and [RequireGuest]
    are opposites: exactly one of them shows its children and the other
    redirects, according to whether a user is signed in. *)
Theorem RequireAuth_and_RequireGuest_are_opposites h r1 r2 fallback c1 c2 :
  RouteGuards.isPending h = false →
  (is_Some (RouteGuards.session_user h)
   ∧ RouteGuards.RequireAuth h r1 fallback c1 = RouteGuards.Fragment c1
   ∧ RouteGuards.RequireGuest h r2 c2
     = RouteGuards.Navigate (RouteGuards.redirect_or_root r2))
  ∨ (RouteGuards.session_user h = None
     ∧ RouteGuards.RequireAuth h r1 fallback c1
       = RouteGuards.Navigate (RouteGuards.redirect_or_root r1)
     ∧ RouteGuards.RequireGuest h r2 c2 = RouteGuards.Fragment c2).
Proof.
  intros Hp. unfold RouteGuards.RequireAuth, RouteGuards.RequireGuest. rewrite Hp.
  destruct (RouteGuards.session_user h) as [u|].
  - left. split; [by eexists |].
    by rewrite bool_decide_eq_true_2 by (by eexists).
  - right. split; [done |].
    by rewrite bool_decide_eq_false_2 by (by intros [? ?]).
Qed.

Lemma RequireAuth_and_RequireGuest_are_opposites_witness :
  RouteGuards.isPending
    {| RouteGuards.session_user := Some (lit "u1"); RouteGuards.isPending := false;
       RouteGuards.isAdmin := false; RouteGuards.isAdminLoading := false |} = false
  ∧ RouteGuards.RequireAuth
      {| RouteGuards.session_user := Some (lit "u1"); RouteGuards.isPending := false;
         RouteGuards.isAdmin := false; RouteGuards.isAdminLoading := false |}
      None None (RouteGuards.Content (lit "page"))
    = RouteGuards.Fragment (RouteGuards.Content (lit "page"))
  ∧ RouteGuards.RequireGuest
      {| RouteGuards.session_user := Some (lit "u1"); RouteGuards.isPending := false;
         RouteGuards.isAdmin := false; RouteGuards.isAdminLoading := false |}
      None (RouteGuards.Content (lit "login"))
    = RouteGuards.Navigate RouteGuards.root.
Proof.
  assert (H : RouteGuards.isPending
                {| RouteGuards.session_user := Some (lit "u1");
                   RouteGuards.isPending := false; RouteGuards.isAdmin := false;
                   RouteGuards.isAdminLoading := false |} = false) by reflexivity.
  split; [exact H |].
  destruct (RequireAuth_and_RequireGuest_are_opposites _ None None None
              (RouteGuards.Content (lit "page")) (RouteGuards.Content (lit "login")) H)
    as [[_ [Ha Hb]]|[Hn _]].
  - split; [exact Ha | exact Hb].
  - discriminate Hn.
Defined.

(** X23. [ComposeGuards] nests the guards first to last, outermost
    first. If every guard passes its children on, the children come out
    inside one fragment per guard and one more. If the guards before some
    guard pass and that guard renders something that does not depend on
    its children, that is what comes out, whatever the later guards would
    do. *)
Theorem ComposeGuards_first_blocker_wins before guard after blocked children :
  (∀ G, G ∈ before → ∀ n, G n = RouteGuards.Fragment n) →
  RouteGuards.ComposeGuards before children
  = fragments (S (length before)) children
  ∧ ((∀ n, guard n = blocked) →
     RouteGuards.ComposeGuards (before ++ guard :: after) children
     = fragments (length before) blocked).
Proof.
  intros Hpass. unfold RouteGuards.ComposeGuards. split.
  - induction before as [|G gs IH]; [done |]. cbn [foldr length fragments].
    rewrite (Hpass G) by left. f_equal. apply IH. intros G' HG'. apply Hpass. by right.
  - intros Hblock. induction before as [|G gs IH]; cbn [app foldr length fragments].
    + apply Hblock.
    + rewrite (Hpass G) by left. f_equal. apply IH. intros G' HG'. apply Hpass. by right.
Qed.

Lemma ComposeGuards_first_blocker_wins_witness :
  (∀ G,
     G ∈ [RouteGuards.RequireAuth
            {| RouteGuards.session_user := Some (lit "u1");
               RouteGuards.isPending := false; RouteGuards.isAdmin := true;
               RouteGuards.isAdminLoading := false |} None None] →
     ∀ n, G n = RouteGuards.Fragment n)
  ∧ RouteGuards.ComposeGuards
      [RouteGuards.RequireAuth
         {| RouteGuards.session_user := Some (lit "u1");
            RouteGuards.isPending := false; RouteGuards.isAdmin := true;
            RouteGuards.isAdminLoading := false |} None None;
       RouteGuards.RequireSubscription
         {| RouteGuards.session_user := Some (lit "u1");
            RouteGuards.isPending := false; RouteGuards.isAdmin := true;
            RouteGuards.isAdminLoading := false |} None None;
       RouteGuards.RequireAdmin
         {| RouteGuards.session_user := Some (lit "u1");
            RouteGuards.isPending := false; RouteGuards.isAdmin := true;
            RouteGuards.isAdminLoading := false |} None None]
      (RouteGuards.Content (lit "premium"))
    = RouteGuards.Fragment (RouteGuards.Navigate RouteGuards.root).
Proof.
  assert (H : ∀ G,
            G ∈ [RouteGuards.RequireAuth
                   {| RouteGuards.session_user := Some (lit "u1");
                      RouteGuards.isPending := false; RouteGuards.isAdmin := true;
                      RouteGuards.isAdminLoading := false |} None None] →
            ∀ n, G n = RouteGuards.Fragment n).
  { intros G HG n. apply list_elem_of_singleton in HG. subst G. reflexivity. }
  split; [exact H |].
  apply (proj2 (ComposeGuards_first_blocker_wins _ _ _
                  (RouteGuards.Navigate RouteGuards.root)
                  (RouteGuards.Content (lit "premium")) H)).
  intros n. reflexivity.
Defined.
